(** * DECALNIK: font atlas and text decal generator (decalnik.py)

    A shallow embedding of the add-on's generation path:
    [FONT_ATLAS_OT_Generate.execute], [calculate_character_widths],
    [generate_font_atlas] and [create_text_decal].

    Conventions of the embedding.
    - Python [int] is [Z]; [%] and [//] are [Z.modulo] and [Z.div] (both
      floor towards minus infinity, as in Python) behind an explicit test
      for a zero divisor, which raises [ZeroDivisionError].
    - Python [float] is read as an exact rational [Q]: the layout
      arithmetic is stated up to [Qeq], rounding is not modelled.
    - Text is ASCII: a character is an [ascii] and [str.upper] is the
      ASCII upper-casing.
    - A Python dict is a [gmap]; the [bpy.data] collections indexed by name
      are [gmap string _] (Blender's renaming of a data-block whose name
      is taken is not modelled).
    - Paths follow [posixpath].
    - Code that can raise returns an [Outcome]; code that also mutates the
      host ([bpy.data], the scene, the disk, the operator's reports) is a
      function [World -> Outcome A * World]: the world reached when an
      exception escapes is kept, because nothing rolls it back. *)

From Stdlib Require Import ZArith QArith Lia Lqa String Ascii List.
From stdpp Require Import gmap strings list fin_maps.

#[local] Set Warnings "-clear-no-such-hyp".

Open Scope Z_scope.

(** ** Exceptions and outcomes *)

Inductive Exn : Type :=
  | ZeroDivisionError
  | OSError
  | PermissionError
  | NameError
  | IndexError
  | KeyError
  | AttributeError.

Inductive Outcome (A : Type) : Type :=
  | Return (a : A)
  | Raise (e : Exn).
Arguments Return {A} a.
Arguments Raise {A} e.

Definition obind {A B} (m : Outcome A) (k : A → Outcome B) : Outcome B :=
  match m with
  | Return a => k a
  | Raise e => Raise e
  end.

Declare Scope py_scope.
Delimit Scope py_scope with py.
Notation "'let!' x ':=' m 'in' k" := (obind m (fun x => k))
  (at level 10, x name, m at level 100, k at level 200) : py_scope.
Open Scope py_scope.

(** ** Python arithmetic *)

Definition py_mod (a b : Z) : Outcome Z :=
  if b =? 0 then Raise ZeroDivisionError else Return (a mod b).

Definition py_floordiv (a b : Z) : Outcome Z :=
  if b =? 0 then Raise ZeroDivisionError else Return (a / b).

(** [a / b] on numbers: true division. *)
Definition py_truediv (a b : Q) : Outcome Q :=
  if Qeq_bool b 0 then Raise ZeroDivisionError else Return (a / b)%Q.

(** [int(x)] on a float truncates towards zero. *)
Definition py_int (x : Q) : Z := Z.quot (Qnum x) (Zpos (Qden x)).

Definition Z2Q : Z → Q := inject_Z.

(** ** Characters *)

(** [str.upper] on one ASCII character. *)
Definition upper (c : ascii) : ascii :=
  let n := nat_of_ascii c in
  if ((97 <=? n) && (n <=? 122))%nat then ascii_of_nat (n - 32) else c.

(** [list(s)] *)
Definition chars_of (s : string) : list ascii := list_ascii_of_string s.

(** ** The UV table of [create_text_decal] (lines 146-155) *)

(** The four scalars [u_min, u_max, v_min, v_max] of the loop body. *)
Record UVBounds := { u_min : Q; u_max : Q; v_min : Q; v_max : Q }.

(** The grid cell the loop reads for character [i] (lines 149-150): the
    row divides by [CELL_COUNT[1]]. *)
Definition uv_cell (CELL_COUNT : Z * Z) (i : Z) : Outcome (Z * Z) :=
  let! col := py_mod i CELL_COUNT.1 in
  let! row := py_floordiv i CELL_COUNT.2 in
  Return (col, row).

Definition uv_bounds (CELL_COUNT : Z * Z) (i : Z) : Outcome UVBounds :=
  let! cell := uv_cell CELL_COUNT i in
  let col := cell.1 in
  let row := cell.2 in
  let! umin := py_truediv (Z2Q col) (Z2Q CELL_COUNT.1) in
  let! umax := py_truediv (Z2Q (col + 1)) (Z2Q CELL_COUNT.1) in
  let! q1 := py_truediv (Z2Q (row + 1)) (Z2Q CELL_COUNT.2) in
  let! q2 := py_truediv (Z2Q row) (Z2Q CELL_COUNT.2) in
  Return {| u_min := umin; u_max := umax;
            v_min := (1 - q1)%Q; v_max := (1 - q2)%Q |}.

(** The value stored in [uv_dict]: the four corners, in loop order. *)
Definition uv_corners (b : UVBounds) : list (Q * Q) :=
  [(u_min b, v_min b); (u_max b, v_min b); (u_max b, v_max b); (u_min b, v_max b)].

(** [for i, char in enumerate(CHARACTERS): ... uv_dict[char] = [...]],
    started at index [i] on the table built so far. *)
Fixpoint uv_loop (CELL_COUNT : Z * Z) (i : Z) (CHARACTERS : list ascii)
    (uv_dict : gmap ascii (list (Q * Q))) : Outcome (gmap ascii (list (Q * Q))) :=
  match CHARACTERS with
  | [] => Return uv_dict
  | char :: rest =>
      let! b := uv_bounds CELL_COUNT i in
      uv_loop CELL_COUNT (i + 1) rest (<[char := uv_corners b]> uv_dict)
  end.

Definition uv_table (CELL_COUNT : Z * Z) (CHARACTERS : list ascii)
    : Outcome (gmap ascii (list (Q * Q))) :=
  uv_loop CELL_COUNT 0 CHARACTERS ∅.

(** The grid cell [generate_font_atlas] draws character [i] in
    (lines 94-95): both coordinates divide by the column count. *)
Definition atlas_cell (cell_count : Z * Z) (i : Z) : Outcome (Z * Z) :=
  let! x := py_mod i cell_count.1 in
  let! y := py_floordiv i cell_count.1 in
  Return (x, y).

(** A rectangle lies in the unit square. *)
Definition in_unit_square (b : UVBounds) : Prop :=
  (0 <= u_min b ∧ u_min b <= u_max b ∧ u_max b <= 1 ∧
   0 <= v_min b ∧ v_min b <= v_max b ∧ v_max b <= 1)%Q.

Definition in_unit_squareb (b : UVBounds) : bool :=
  Qle_bool 0 (u_min b) && Qle_bool (u_min b) (u_max b) && Qle_bool (u_max b) 1 &&
  Qle_bool 0 (v_min b) && Qle_bool (v_min b) (v_max b) && Qle_bool (v_max b) 1.


(** ** Text and path helpers *)

Definition newline : ascii := "010".
Definition backslash : ascii := "\".
Definition sep : ascii := "/".

(** [text.replace('\\n', '\n')]: every two-character sequence backslash,
    [n] becomes one newline, scanning left to right. *)
Fixpoint replace_backslash_n (s : list ascii) : list ascii :=
  match s with
  | [] => []
  | c :: rest =>
      match rest with
      | c' :: rest' =>
          if Ascii.eqb c backslash && Ascii.eqb c' "n"
          then newline :: replace_backslash_n rest'
          else c :: replace_backslash_n rest
      | [] => [c]
      end
  end.

(** [text.split("\n")] *)
Fixpoint split_lines (s : list ascii) : list (list ascii) :=
  match s with
  | [] => [[]]
  | c :: rest =>
      if Ascii.eqb c newline then [] :: split_lines rest
      else match split_lines rest with
           | l :: ls => (c :: l) :: ls
           | [] => [[c]]
           end
  end.

Definition has_sep (s : list ascii) : bool := existsb (Ascii.eqb sep) s.

(** [posixpath.basename]: what follows the last separator. *)
Fixpoint basename_chars (s : list ascii) : list ascii :=
  match s with
  | [] => []
  | _ :: rest => if has_sep s then basename_chars rest else s
  end.

(** [p[:p.rfind('/') + 1]] *)
Fixpoint head_chars (s : list ascii) : list ascii :=
  match s with
  | [] => []
  | c :: rest => if has_sep s then c :: head_chars rest else []
  end.

Fixpoint lstrip_sep (s : list ascii) : list ascii :=
  match s with
  | [] => []
  | c :: rest => if Ascii.eqb c sep then lstrip_sep rest else s
  end.

(** [head.rstrip('/')] *)
Definition rstrip_sep (s : list ascii) : list ascii :=
  rev (lstrip_sep (rev s)).

(** [posixpath.dirname] *)
Definition dirname_chars (s : list ascii) : list ascii :=
  let head := head_chars s in
  if forallb (Ascii.eqb sep) head then head else rstrip_sep head.

Definition os_path_basename (p : string) : string :=
  string_of_list_ascii (basename_chars (list_ascii_of_string p)).

Definition os_path_dirname (p : string) : string :=
  string_of_list_ascii (dirname_chars (list_ascii_of_string p)).

Definition startswith_sep (s : string) : bool :=
  match s with
  | String c _ => Ascii.eqb c sep
  | EmptyString => false
  end.

Definition endswith_sep (s : string) : bool :=
  match rev (list_ascii_of_string s) with
  | c :: _ => Ascii.eqb c sep
  | [] => false
  end.

Definition nonempty (s : string) : bool :=
  match s with
  | EmptyString => false
  | String _ _ => true
  end.

(** [os.path.join(a, b)] (POSIX): an absolute [b] replaces [a]. *)
Definition os_path_join (a b : string) : string :=
  if startswith_sep b then b
  else if negb (nonempty a) || endswith_sep a then (a +:+ b)%string
  else (a +:+ "/" +:+ b)%string.

(** ** Properties, host and world *)

Definition V3 : Type := Q * Q * Q.
Definition RGB : Type := Z * Z * Z.

(** The three items of the [atlas_size] enum. *)
Inductive AtlasSize := Atlas512 | Atlas1024 | Atlas2048.

(** [[int(dim) for dim in props.atlas_size.split('x')]] *)
Definition atlas_dims (a : AtlasSize) : Z * Z :=
  match a with
  | Atlas512 => (512, 512)
  | Atlas1024 => (1024, 1024)
  | Atlas2048 => (2048, 2048)
  end.

(** [FontAtlasProperties] *)
Record Props := {
  atlas_size : AtlasSize;
  font_path : string;
  font_size : Z;
  symbol_vertical_offset : Z;
  atlas_name : string;
  text_content : string;
  characters : string;
  font_color : Q * Q * Q;
  background_color : Q * Q * Q;
  cell_count : Z * Z;
  decal_scale : Q
}.

(** A loaded font: [font.getmask(char).size]. *)
Definition Font : Type := ascii → Z * Z.

(** One [draw.text(position, char, font_color, font=font)] call. *)
Record DrawText := {
  dt_position : Q * Q;
  dt_char : ascii;
  dt_fill : RGB
}.

(** A PIL image: its size, background and the text drawn on it, in order. *)
Record Image := {
  im_size : Z * Z;
  im_background : RGB;
  im_text : list DrawText
}.

(** An entry of [bpy.data.images]. *)
Record BlImage := {
  bi_filepath : string;
  bi_pixels : option Image
}.

(** An entry of [bpy.data.materials]: the image of its texture node. *)
Record Material := {
  mat_use_nodes : bool;
  mat_image : option string;
  mat_blend_method : string
}.

(** A scene object with its mesh: vertices, one UV per face loop. *)
Record Object := {
  ob_name : string;
  ob_location : V3;
  ob_rotation : V3;
  ob_scale : V3;
  ob_verts : list V3;
  ob_uvs : list (Q * Q);
  ob_materials : list string
}.

Inductive ReportLevel := INFO | WARNING | ERROR.

(** What the add-on reads and writes in Blender and on disk. *)
Record World := {
  is_saved : bool;
  filepath : string;
  disk : gmap string Image;
  images : gmap string BlImage;
  materials : gmap string Material;
  objects : list Object;
  cursor_location : V3;
  cursor_rotation : V3;
  reports : list (ReportLevel * string)
}.

(** What the add-on takes from its environment. [truetype] is
    [ImageFont.truetype] ([None]: the font cannot be opened, [OSError]);
    [save_raises] tells which exception, if any, [image.save] raises for
    a path. The last four are Blender's geometry services used once the
    quads are joined: [bpy.ops.object.origin_set] for the two origin
    types the add-on asks for, [bpy.ops.object.transform_apply] with all
    of location, rotation and scale, and
    [region_data.view_rotation @ Vector((0, 0, 1))] ([None]: the context
    has no region data, [AttributeError]). *)
Record Host := {
  truetype : string → Z → option Font;
  save_raises : string → option Exn;
  origin_center_of_volume : Object → Object;
  origin_cursor : V3 → Object → Object;
  transform_apply_all : Object → Object;
  view_vector : option V3
}.

(** ** Stateful computations *)

Definition M (A : Type) : Type := World → Outcome A * World.

Definition mret {A} (a : A) : M A := λ w, (Return a, w).
Definition mraise {A} (e : Exn) : M A := λ w, (Raise e, w).
Definition mbind {A B} (m : M A) (k : A → M B) : M B :=
  λ w, match m w with
       | (Return a, w') => k a w'
       | (Raise e, w') => (Raise e, w')
       end.
Definition lift {A} (o : Outcome A) : M A := λ w, (o, w).
Definition get : M World := λ w, (Return w, w).
Definition modify (f : World → World) : M unit := λ w, (Return tt, f w).

Notation "'let*' x ':=' m 'in' k" := (mbind m (fun x => k))
  (at level 10, x name, m at level 100, k at level 200) : py_scope.
Notation "m ';;' k" := (mbind m (fun _ => k))
  (at level 100, k at level 200, right associativity) : py_scope.

(** [d[k]] on a dict *)
Definition dict_get {V} (d : gmap ascii V) (k : ascii) : Outcome V :=
  match d !! k with
  | Some v => Return v
  | None => Raise KeyError
  end.

(** [k in d] *)
Definition dict_mem {V} (d : gmap ascii V) (k : ascii) : bool :=
  bool_decide (is_Some (d !! k)).

(** [self.report({level}, msg)] inside the operator *)
Definition set_reports (r : list (ReportLevel * string)) (w : World) : World :=
  {| is_saved := is_saved w; filepath := filepath w; disk := disk w;
     images := images w; materials := materials w; objects := objects w;
     cursor_location := cursor_location w; cursor_rotation := cursor_rotation w;
     reports := r |}.

Definition report (lvl : ReportLevel) (msg : string) : M unit :=
  modify (λ w, set_reports (reports w ++ [(lvl, msg)]) w).

Definition set_disk (d : gmap string Image) (w : World) : World :=
  {| is_saved := is_saved w; filepath := filepath w; disk := d;
     images := images w; materials := materials w; objects := objects w;
     cursor_location := cursor_location w; cursor_rotation := cursor_rotation w;
     reports := reports w |}.

Definition set_images (i : gmap string BlImage) (w : World) : World :=
  {| is_saved := is_saved w; filepath := filepath w; disk := disk w;
     images := i; materials := materials w; objects := objects w;
     cursor_location := cursor_location w; cursor_rotation := cursor_rotation w;
     reports := reports w |}.

Definition set_materials (m : gmap string Material) (w : World) : World :=
  {| is_saved := is_saved w; filepath := filepath w; disk := disk w;
     images := images w; materials := m; objects := objects w;
     cursor_location := cursor_location w; cursor_rotation := cursor_rotation w;
     reports := reports w |}.

Definition set_objects (o : list Object) (w : World) : World :=
  {| is_saved := is_saved w; filepath := filepath w; disk := disk w;
     images := images w; materials := materials w; objects := o;
     cursor_location := cursor_location w; cursor_rotation := cursor_rotation w;
     reports := reports w |}.

Definition Exn_eqb (a b : Exn) : bool :=
  match a, b with
  | ZeroDivisionError, ZeroDivisionError | OSError, OSError
  | PermissionError, PermissionError | NameError, NameError
  | IndexError, IndexError | KeyError, KeyError
  | AttributeError, AttributeError => true
  | _, _ => false
  end.

(** [try: body except exc: handler] *)
Definition try_except {A} (body : M A) (exc : Exn) (handler : M A) : M A :=
  λ w, match body w with
       | (Raise e, w') => if Exn_eqb e exc then handler w' else (Raise e, w')
       | r => r
       end.

(** [l[i]] on a list *)
Definition list_get {A} (l : list A) (i : nat) : Outcome A :=
  match l !! i with
  | Some a => Return a
  | None => Raise IndexError
  end.

(** [sum(ws)]: left to right from [0]. *)
Definition py_sum (ws : list Q) : Q := fold_left Qplus ws 0%Q.

(** ** [calculate_character_widths] (lines 63-73) *)

Definition open_font (h : Host) (path : string) (size : Z) : Outcome Font :=
  match truetype h path size with
  | Some font => Return font
  | None => Raise OSError
  end.

(** [width / target_height * 0.8] for one character *)
Definition measured_width (font : Font) (target_height : Z) (char : ascii) : Outcome Q :=
  let width := (font char).1 in
  let! r := py_truediv (Z2Q width) (Z2Q target_height) in
  Return (r * (8 # 10))%Q.

Fixpoint widths_loop (font : Font) (target_height : Z) (characters : list ascii)
    (widths : gmap ascii Q) : Outcome (gmap ascii Q) :=
  match characters with
  | [] => Return widths
  | char :: rest =>
      let! wd := measured_width font target_height char in
      widths_loop font target_height rest (<[char := wd]> widths)
  end.

Definition calculate_character_widths (h : Host) (font_path : string)
    (characters : list ascii) (target_height : Z) : Outcome (gmap ascii Q) :=
  let! font := open_font h font_path target_height in
  widths_loop font target_height characters ∅.

(** ** [generate_font_atlas] (lines 76-120) *)

(** [tuple(int(c * 255) for c in color)] *)
Definition color255 (c : Q * Q * Q) : RGB :=
  (py_int (c.1.1 * 255), py_int (c.1.2 * 255), py_int (c.2 * 255)).

(** The [position] tuple of the drawing loop for character [i]. *)
Definition draw_position (props : Props) (font : Font) (cell_size : Q * Q)
    (i : Z) (char : ascii) : Outcome (Q * Q) :=
  let target_height := font_size props in
  let! cell := atlas_cell (cell_count props) i in
  let x := cell.1 in
  let y := cell.2 in
  let wh := font char in
  Return (Z2Q x * cell_size.1 + (cell_size.1 - Z2Q wh.1) / 2,
          Z2Q y * cell_size.2 + (cell_size.2 - Z2Q target_height) / 2
            - Z2Q (symbol_vertical_offset props))%Q.

(** [for i, char in enumerate(CHARACTERS): ... draw.text(...)], started at
    index [i]; the calls made are returned in order. *)
Fixpoint draw_loop (props : Props) (font : Font) (cell_size : Q * Q)
    (i : Z) (CHARACTERS : list ascii) : Outcome (list DrawText) :=
  match CHARACTERS with
  | [] => Return []
  | char :: rest =>
      let! position := draw_position props font cell_size i char in
      let font_color := color255 (font_color props) in
      let! later := draw_loop props font cell_size (i + 1) rest in
      Return ({| dt_position := position; dt_char := char; dt_fill := font_color |}
                :: later)
  end.

(** [bpy.path.abspath("//")]: the directory of the .blend file, joined
    with the empty remainder of the path. *)
Definition abspath_blend (w : World) : string :=
  os_path_join (os_path_dirname (filepath w)) "".

(** The image as it is when [image.save] is reached. *)
Definition render_atlas (h : Host) (props : Props) : Outcome Image :=
  let ATLAS_SIZE := atlas_dims (atlas_size props) in
  let background := color255 (background_color props) in
  let! font := open_font h (font_path props) (font_size props) in
  let! cw := py_truediv (Z2Q ATLAS_SIZE.1) (Z2Q (cell_count props).1) in
  let! ch := py_truediv (Z2Q ATLAS_SIZE.2) (Z2Q (cell_count props).2) in
  let! drawn := draw_loop props font (cw, ch) 0 (chars_of (characters props)) in
  Return {| im_size := ATLAS_SIZE; im_background := background; im_text := drawn |}.

(** [image.save(atlas_path)] *)
Definition image_save (h : Host) (atlas_path : string) (image : Image) : M unit :=
  match save_raises h atlas_path with
  | Some e => mraise e
  | None => modify (λ w, set_disk (<[atlas_path := image]> (disk w)) w)
  end.

(** [bpy.data.images.load(path)]: the new entry is named after the file. *)
Definition images_load (path : string) : M string :=
  let name := os_path_basename path in
  modify (λ w, set_images
    (<[name := {| bi_filepath := path; bi_pixels := disk w !! path |}]> (images w)) w) ;;
  mret name.

(** [img.reload()] *)
Definition image_reload (name : string) : M unit :=
  modify (λ w,
    match images w !! name with
    | Some bi =>
        set_images (<[name := {| bi_filepath := bi_filepath bi;
                                 bi_pixels := disk w !! bi_filepath bi |}]> (images w)) w
    | None => w
    end).

(** [os.path.join(bpy.path.abspath("//"), ATLAS_NAME + ".png")] *)
Definition atlas_path_of (w : World) (props : Props) : string :=
  os_path_join (abspath_blend w) (atlas_name props +:+ ".png").

(** The function returns the image it loaded, by its name in
    [bpy.data.images]. The handler of [PermissionError] evaluates [self],
    which no scope of this module-level function binds: it raises
    [NameError] and its [return None] is not reached. *)
Definition generate_font_atlas (h : Host) (props : Props) : M (option string) :=
  let ATLAS_NAME := atlas_name props in
  let* image := lift (render_atlas h props) in
  let* w := get in
  let atlas_path := atlas_path_of w props in
  try_except (image_save h atlas_path image) PermissionError (mraise NameError) ;;
  let blender_image_name := (ATLAS_NAME +:+ ".png")%string in
  let* w := get in
  if bool_decide (is_Some (images w !! blender_image_name)) then
    image_reload blender_image_name ;;
    mret (Some blender_image_name)
  else
    let* img := images_load atlas_path in
    mret (Some img).

(** ** [create_text_decal] (lines 123-247) *)

(** The two [if ATLAS_NAME not in bpy.data.materials] blocks: a material
    that is missing is created around the given image. *)
Definition ensure_material (ATLAS_NAME : string) (image : option string) : M unit :=
  let* w := get in
  if bool_decide (is_Some (materials w !! ATLAS_NAME)) then mret tt
  else modify (λ w, set_materials
         (<[ATLAS_NAME := {| mat_use_nodes := true; mat_image := image;
                             mat_blend_method := "CLIP" |}]> (materials w)) w).

(** [bpy.data.images.get(ATLAS_NAME, None)] *)
Definition images_get (name : string) : M (option string) :=
  let* w := get in
  mret (if bool_decide (is_Some (images w !! name)) then Some name else None).

(** [{char: 1 for char in CHARACTERS}] *)
Definition unit_widths (CHARACTERS : list ascii) : gmap ascii Q :=
  fold_left (λ d char, <[char := 1%Q]> d) CHARACTERS ∅.

(** [[char_widths[char.upper()] for char in line if char.upper() in uv_dict]] *)
Fixpoint matched_widths (uv_dict : gmap ascii (list (Q * Q)))
    (char_widths : gmap ascii Q) (line : list ascii) : Outcome (list Q) :=
  match line with
  | [] => Return []
  | char :: rest =>
      if dict_mem uv_dict (upper char) then
        let! wd := dict_get char_widths (upper char) in
        let! ws := matched_widths uv_dict char_widths rest in
        Return (wd :: ws)
      else matched_widths uv_dict char_widths rest
  end.

Definition total_width (uv_dict : gmap ascii (list (Q * Q)))
    (char_widths : gmap ascii Q) (line : list ascii) : Outcome Q :=
  let! ws := matched_widths uv_dict char_widths line in
  Return (py_sum ws).

(** [bpy.ops.mesh.primitive_plane_add(size=1, align='WORLD', location=...)]:
    a unit square around its origin, one UV per face loop. *)
Definition primitive_plane_add (location : V3) : Object :=
  {| ob_name := "Plane";
     ob_location := location;
     ob_rotation := (0, 0, 0)%Q;
     ob_scale := (1, 1, 1)%Q;
     ob_verts := [(- (1 # 2), - (1 # 2), 0); (1 # 2, - (1 # 2), 0);
                  (- (1 # 2), 1 # 2, 0); (1 # 2, 1 # 2, 0)]%Q;
     ob_uvs := [(0, 0); (1, 0); (1, 1); (0, 1)]%Q;
     ob_materials := [] |}.

(** [plane.scale[0] = scale_factor] *)
Definition set_scale_x (s : Q) (o : Object) : Object :=
  {| ob_name := ob_name o; ob_location := ob_location o;
     ob_rotation := ob_rotation o;
     ob_scale := (s, (ob_scale o).1.2, (ob_scale o).2);
     ob_verts := ob_verts o; ob_uvs := ob_uvs o; ob_materials := ob_materials o |}.

(** [transform_apply(location=False, rotation=False, scale=True)]: the
    scale goes into the vertices. *)
Definition transform_apply_scale (o : Object) : Object :=
  let s := ob_scale o in
  {| ob_name := ob_name o; ob_location := ob_location o;
     ob_rotation := ob_rotation o;
     ob_scale := (1, 1, 1)%Q;
     ob_verts := map (λ v : V3, (s.1.1 * v.1.1, s.1.2 * v.1.2, s.2 * v.2)%Q) (ob_verts o);
     ob_uvs := ob_uvs o; ob_materials := ob_materials o |}.

(** [plane.location.x += d] *)
Definition move_x (d : Q) (o : Object) : Object :=
  {| ob_name := ob_name o;
     ob_location := (((ob_location o).1.1 + d)%Q, (ob_location o).1.2, (ob_location o).2);
     ob_rotation := ob_rotation o; ob_scale := ob_scale o;
     ob_verts := ob_verts o; ob_uvs := ob_uvs o; ob_materials := ob_materials o |}.

(** [plane.data.materials.append(mat)] *)
Definition append_material (mat : string) (o : Object) : Object :=
  {| ob_name := ob_name o; ob_location := ob_location o;
     ob_rotation := ob_rotation o; ob_scale := ob_scale o;
     ob_verts := ob_verts o; ob_uvs := ob_uvs o;
     ob_materials := ob_materials o ++ [mat] |}.

Definition set_uvs (uvs : list (Q * Q)) (o : Object) : Object :=
  {| ob_name := ob_name o; ob_location := ob_location o;
     ob_rotation := ob_rotation o; ob_scale := ob_scale o;
     ob_verts := ob_verts o; ob_uvs := uvs; ob_materials := ob_materials o |}.

(** [transform_apply(location=True, rotation=False, scale=False)] on an
    object without rotation and with unit scale: the location goes into
    the vertices. *)
Definition transform_apply_location (o : Object) : Object :=
  let l := ob_location o in
  {| ob_name := ob_name o; ob_location := (0, 0, 0)%Q;
     ob_rotation := ob_rotation o; ob_scale := ob_scale o;
     ob_verts := map (λ v : V3, (v.1.1 + l.1.1, v.1.2 + l.1.2, v.2 + l.2)%Q) (ob_verts o);
     ob_uvs := ob_uvs o; ob_materials := ob_materials o |}.

(** [uv_center] (lines 206-207) *)
Definition uv_center (rect : list (Q * Q)) : Outcome (Q * Q) :=
  let! c0 := list_get rect 0 in
  let! c1 := list_get rect 1 in
  let! c0' := list_get rect 0 in
  let! c3 := list_get rect 3 in
  Return ((c0.1 + c1.1) / 2, (c0'.2 + c3.2) / 2)%Q.

(** [for i, loop in enumerate(plane.data.loops)] (lines 209-213), from
    loop [i] on: the new UV of each remaining loop. *)
Fixpoint loop_uvs (rect : list (Q * Q)) (center : Q * Q) (scale_factor : Q)
    (i : nat) (loops : list (Q * Q)) : Outcome (list (Q * Q)) :=
  match loops with
  | [] => Return []
  | _ :: rest =>
      let! corner := list_get rect i in
      let uv_offset := (corner.1 - center.1, corner.2 - center.2)%Q in
      let uv := (center.1 + uv_offset.1 * scale_factor, center.2 + uv_offset.2)%Q in
      let! later := loop_uvs rect center scale_factor (S i) rest in
      Return (uv :: later)
  end.

(** In-place change of the scene object at index [idx]. *)
Definition update_object (idx : nat) (f : Object → Object) : M unit :=
  modify (λ w, set_objects (alter f idx (objects w)) w).

Definition get_object (idx : nat) : M Object :=
  let* w := get in lift (list_get (objects w) idx).

(** The body of [if char.upper() in uv_dict:] (lines 192-216): the new
    plane is the last scene object; the result is its index and the
    advanced [line_cursor]. *)
Definition place_char (uv_dict : gmap ascii (list (Q * Q)))
    (char_widths : gmap ascii Q) (mat : string) (cursor_location : V3)
    (line_cursor : Q) (char : ascii) : M (nat * Q) :=
  let* w := get in
  let plane := length (objects w) in
  modify (set_objects (objects w ++
    [primitive_plane_add (line_cursor, cursor_location.1.2, cursor_location.2)])) ;;
  let* scale_factor := lift (dict_get char_widths (upper char)) in
  update_object plane (set_scale_x scale_factor) ;;
  update_object plane transform_apply_scale ;;
  update_object plane (move_x (scale_factor * (1 # 2))) ;;
  update_object plane (append_material mat) ;;
  let* rect := lift (dict_get uv_dict (upper char)) in
  let* center := lift (uv_center rect) in
  let* o := get_object plane in
  let* uvs := lift (loop_uvs rect center scale_factor 0 (ob_uvs o)) in
  update_object plane (set_uvs uvs) ;;
  update_object plane transform_apply_location ;;
  let* wd := lift (dict_get char_widths (upper char)) in
  mret (plane, (line_cursor + wd)%Q).

(** [for char in line:] (lines 190-216): the objects created so far and
    the running [line_cursor] are threaded through. *)
Fixpoint place_line (uv_dict : gmap ascii (list (Q * Q)))
    (char_widths : gmap ascii Q) (mat : string) (cursor_location : V3)
    (line : list ascii) (line_cursor : Q) (created_objects : list nat)
    : M (Q * list nat) :=
  match line with
  | [] => mret (line_cursor, created_objects)
  | char :: rest =>
      if dict_mem uv_dict (upper char) then
        let* r := place_char uv_dict char_widths mat cursor_location line_cursor char in
        place_line uv_dict char_widths mat cursor_location rest r.2
          (created_objects ++ [r.1])
      else
        place_line uv_dict char_widths mat cursor_location rest line_cursor
          created_objects
  end.

(** [line_cursor = cursor_location.x - (total_width / 2)] *)
Definition line_start (cursor_location : V3) (total_width : Q) : Q :=
  (cursor_location.1.1 - total_width / 2)%Q.

(** [for line in lines:] (lines 186-218); [cursor_location] is the local
    copy whose [y] drops by one after each line. *)
Fixpoint place_lines (uv_dict : gmap ascii (list (Q * Q)))
    (char_widths : gmap ascii Q) (mat : string) (lines : list (list ascii))
    (cursor_location : V3) (created_objects : list nat) : M (list nat) :=
  match lines with
  | [] => mret created_objects
  | line :: rest =>
      let* tw := lift (total_width uv_dict char_widths line) in
      let line_cursor := line_start cursor_location tw in
      let* r := place_line uv_dict char_widths mat cursor_location line
                  line_cursor created_objects in
      let cursor_location' : V3 :=
        (cursor_location.1.1, (cursor_location.1.2 - 1)%Q, cursor_location.2) in
      place_lines uv_dict char_widths mat rest cursor_location' r.2
  end.

Definition set_name (n : string) (o : Object) : Object :=
  {| ob_name := n; ob_location := ob_location o; ob_rotation := ob_rotation o;
     ob_scale := ob_scale o; ob_verts := ob_verts o; ob_uvs := ob_uvs o;
     ob_materials := ob_materials o |}.

Definition set_location (l : V3) (o : Object) : Object :=
  {| ob_name := ob_name o; ob_location := l; ob_rotation := ob_rotation o;
     ob_scale := ob_scale o; ob_verts := ob_verts o; ob_uvs := ob_uvs o;
     ob_materials := ob_materials o |}.

Definition set_rotation (r : V3) (o : Object) : Object :=
  {| ob_name := ob_name o; ob_location := ob_location o; ob_rotation := r;
     ob_scale := ob_scale o; ob_verts := ob_verts o; ob_uvs := ob_uvs o;
     ob_materials := ob_materials o |}.

(** [decal.scale *= k] *)
Definition scale_by (k : Q) (o : Object) : Object :=
  let s := ob_scale o in
  {| ob_name := ob_name o; ob_location := ob_location o;
     ob_rotation := ob_rotation o;
     ob_scale := (s.1.1 * k, s.1.2 * k, s.2 * k)%Q;
     ob_verts := ob_verts o; ob_uvs := ob_uvs o; ob_materials := ob_materials o |}.

(** [decal.location += v * k] *)
Definition move_by (v : V3) (k : Q) (o : Object) : Object :=
  let l := ob_location o in
  set_location ((l.1.1 + v.1.1 * k)%Q, (l.1.2 + v.1.2 * k)%Q, (l.2 + v.2 * k)%Q) o.

(** The mesh of the active object followed by the meshes of the others;
    a material shared by several of them keeps one slot. Every joined
    plane has had its transforms applied, so no vertex moves. *)
Definition merge_meshes (a : Object) (others : list Object) : Object :=
  {| ob_name := ob_name a; ob_location := ob_location a;
     ob_rotation := ob_rotation a; ob_scale := ob_scale a;
     ob_verts := ob_verts a ++ concat (map ob_verts others);
     ob_uvs := ob_uvs a ++ concat (map ob_uvs others);
     ob_materials := remove_dups (ob_materials a ++ concat (map ob_materials others)) |}.

(** The scene after a join, scanned from index [i]: the active object is
    replaced by the merged one and the other joined objects are gone. *)
Fixpoint join_scan (active : nat) (others : list nat) (merged : Object)
    (i : nat) (objs : list Object) : list Object :=
  match objs with
  | [] => []
  | o :: rest =>
      if bool_decide (i = active) then
        merged :: join_scan active others merged (S i) rest
      else if bool_decide (i ∈ others) then
        join_scan active others merged (S i) rest
      else o :: join_scan active others merged (S i) rest
  end.

(** [select_all(action='DESELECT')], the [select_set(True)] loop, making
    [active] the active object, and [bpy.ops.object.join()]; the result is
    the index of the active object afterwards. *)
Definition object_join (active : nat) (selected : list nat) : M nat :=
  let* w := get in
  let* a := lift (list_get (objects w) active) in
  let others := filter (λ i, i ≠ active) selected in
  let merged := merge_meshes a (omap (λ i, objects w !! i) others) in
  modify (set_objects (join_scan active others merged 0 (objects w))) ;;
  mret (length (filter (λ i, i ∉ others) (seq 0 active))).

(** Lines 226-247, on the joined object. *)
Definition finish_decal (h : Host) (props : Props) (decal : nat) : M unit :=
  update_object decal (set_name "TextDecal") ;;
  update_object decal (origin_center_of_volume h) ;;
  let* w := get in
  update_object decal (set_location (cursor_location w)) ;;
  update_object decal (set_rotation (cursor_rotation w)) ;;
  update_object decal (scale_by (decal_scale props)) ;;
  update_object decal (transform_apply_all h) ;;
  let* v := lift (match view_vector h with
                  | Some v => Return v
                  | None => Raise AttributeError
                  end) in
  update_object decal (move_by v (1 # 1000)) ;;
  let* w := get in
  update_object decal (origin_cursor h (cursor_location w)).

(** Lines 171-174: measured widths when a font path is set, width one for
    every configured character otherwise. *)
Definition decal_char_widths (h : Host) (props : Props) : Outcome (gmap ascii Q) :=
  let CHARACTERS := chars_of (characters props) in
  let FONT_PATH := font_path props in
  if nonempty FONT_PATH
  then calculate_character_widths h FONT_PATH CHARACTERS (font_size props)
  else Return (unit_widths CHARACTERS).

Definition create_text_decal (h : Host) (props : Props) (img : option string)
    (text : string) : M unit :=
  let text := replace_backslash_n (chars_of text) in
  let ATLAS_NAME := atlas_name props in
  let CHARACTERS := chars_of (characters props) in
  let CELL_COUNT := cell_count props in
  ensure_material ATLAS_NAME img ;;
  let* uv_dict := lift (uv_table CELL_COUNT CHARACTERS) in
  let* named := images_get ATLAS_NAME in
  ensure_material ATLAS_NAME named ;;
  let* char_widths := lift (decal_char_widths h props) in
  let lines := split_lines text in
  let* w := get in
  let cursor_location := cursor_location w in
  let* created_objects :=
    place_lines uv_dict char_widths ATLAS_NAME lines cursor_location [] in
  let* first := lift (list_get created_objects 0) in
  let* decal := object_join first created_objects in
  finish_decal h props decal.

(** ** [FONT_ATLAS_OT_Generate.execute] (lines 46-60) *)

Inductive OperatorResult := FINISHED | CANCELLED.

Definition execute (h : Host) (props : Props) : M OperatorResult :=
  let* w := get in
  if is_saved w && nonempty (filepath w) then
    if negb (nonempty (text_content props)) then
      report ERROR "Please enter text content." ;;
      mret CANCELLED
    else
      let* img := generate_font_atlas h props in
      create_text_decal h props img (text_content props) ;;
      mret FINISHED
  else
    report ERROR "Please save the Blender file before proceeding." ;;
    mret CANCELLED.

(** ** Sample data *)

(** The defaults of [FontAtlasProperties], with an atlas name and a text. *)
Definition sample_props (name text : string) : Props :=
  {| atlas_size := Atlas1024;
     font_path := "arial.ttf";
     font_size := 95;
     symbol_vertical_offset := 15;
     atlas_name := name;
     text_content := text;
     characters := "ABCDEFGHIJKLMNOPQRSTUVWXYZ0123456789&-+/.,!? ";
     font_color := (1, 1, 1)%Q;
     background_color := (0, 0, 0)%Q;
     cell_count := (8, 8);
     decal_scale := (1 # 100)%Q |}.

Definition default_props (text : string) : Props :=
  sample_props "font_atlas_1" text.

(** A host where every font opens and every glyph mask is 50 by 70
    pixels, saving never fails, and the geometry services leave the
    object as it is. *)
Definition sample_host : Host :=
  {| truetype := λ _ _, Some (λ _, (50, 70));
     save_raises := λ _, None;
     origin_center_of_volume := λ o, o;
     origin_cursor := λ _ o, o;
     transform_apply_all := λ o, o;
     view_vector := Some (0, 0, 1)%Q |}.

(** A host like [sample_host] on which saving is denied. *)
Definition readonly_host : Host :=
  {| truetype := truetype sample_host;
     save_raises := λ _, Some PermissionError;
     origin_center_of_volume := origin_center_of_volume sample_host;
     origin_cursor := origin_cursor sample_host;
     transform_apply_all := transform_apply_all sample_host;
     view_vector := view_vector sample_host |}.

(** A saved project with an empty scene and the cursor at [(3, 2, 0)]. *)
Definition saved_world : World :=
  {| is_saved := true;
     filepath := "/home/user/project/scene.blend";
     disk := ∅; images := ∅; materials := ∅; objects := [];
     cursor_location := (3, 2, 0)%Q;
     cursor_rotation := (0, 0, 0)%Q;
     reports := [] |}.

Definition unsaved_world : World :=
  {| is_saved := false;
     filepath := "";
     disk := ∅; images := ∅; materials := ∅; objects := [];
     cursor_location := (3, 2, 0)%Q;
     cursor_rotation := (0, 0, 0)%Q;
     reports := [] |}.


(** The two tables [create_text_decal] builds from the default
    properties on [sample_host]. *)
Definition sample_uv : gmap ascii (list (Q * Q)) :=
  match uv_table (8, 8) (chars_of (characters (default_props "HI"))) with
  | Return uv => uv
  | Raise _ => ∅
  end.

Definition sample_widths : gmap ascii Q :=
  match decal_char_widths sample_host (default_props "HI") with
  | Return cw => cw
  | Raise _ => ∅
  end.

(** ** Vocabulary of the statements *)

(** What [generate_font_atlas] leaves untouched. *)
Definition same_scene (w w' : World) : Prop :=
  is_saved w' = is_saved w ∧ filepath w' = filepath w ∧
  materials w' = materials w ∧ objects w' = objects w ∧
  cursor_location w' = cursor_location w ∧
  cursor_rotation w' = cursor_rotation w ∧ reports w' = reports w.

(** The UVs lines 206-213 give the four loops of a new plane. *)
Definition quad_uvs (rect : list (Q * Q)) (scale_factor : Q) : Outcome (list (Q * Q)) :=
  let! center := uv_center rect in
  loop_uvs rect center scale_factor 0 (ob_uvs (primitive_plane_add (0, 0, 0)%Q)).

(** The plane [place_char] leaves in the scene for a character of width
    [wd] met at [line_cursor], once its UVs are [uvs]. *)
Definition char_quad (wd : Q) (mat : string) (cursor_location : V3)
    (line_cursor : Q) (uvs : list (Q * Q)) : Object :=
  transform_apply_location
    (set_uvs uvs
      (append_material mat
        (move_x (wd * (1 # 2))
          (transform_apply_scale
            (set_scale_x wd
              (primitive_plane_add
                 (line_cursor, cursor_location.1.2, cursor_location.2))))))).

(** The x coordinates of the vertices of an object and their mean. *)
Definition x_coords (o : Object) : list Q := map (λ v : V3, v.1.1) (ob_verts o).

Definition mean_x (o : Object) : Q :=
  (py_sum (x_coords o) / Z2Q (Z.of_nat (length (x_coords o))))%Q.

(** A quad covers the interval [iv]: its left vertices lie at the left
    end, its right vertices at the right end, its centre half-way. *)
Definition quad_covers (o : Object) (iv : Q * Q) : Prop :=
  Forall2 Qeq (x_coords o) [iv.1; iv.2; iv.1; iv.2] ∧
  (mean_x o == iv.1 + (iv.2 - iv.1) / 2)%Q.

(** The intervals laid end to end from [start] with the given widths. *)
Fixpoint spans (start : Q) (ws : list Q) : list (Q * Q) :=
  match ws with
  | [] => []
  | wd :: rest => (start, (start + wd)%Q) :: spans (start + wd)%Q rest
  end.

(** The intervals run from [a] to [b], each starting where the previous
    one ends. *)
Fixpoint tiles_interval (a b : Q) (ivs : list (Q * Q)) : Prop :=
  match ivs with
  | [] => (a == b)%Q
  | iv :: rest => (iv.1 == a)%Q ∧ tiles_interval iv.2 b rest
  end.

(** [[f(x) for x in l]] for an [f] that can raise *)
Fixpoint traverse {A B} (f : A → Outcome B) (l : list A) : Outcome (list B) :=
  match l with
  | [] => Return []
  | x :: rest =>
      let! y := f x in
      let! ys := traverse f rest in
      Return (y :: ys)
  end.

(** The claim's words for the width of a line: the sum of the measured
    widths of every character of the line. *)
Definition measured_widths (font : Font) (target_height : Z) (line : list ascii)
    : Outcome (list Q) :=
  traverse (measured_width font target_height) line.

Definition line_width_spec (font : Font) (target_height : Z) (line : list ascii)
    : Outcome Q :=
  let! ws := measured_widths font target_height line in
  Return (py_sum ws).

(** The characters of a line whose upper-case form is configured. *)
Definition matched (CHARACTERS : list ascii) (line : list ascii) : list ascii :=
  filter (λ c, upper c ∈ CHARACTERS) line.

(** A computation that returns from every world. *)
Definition returns {A} (m : M A) : Prop := ∀ w, ∃ a w', m w = (Return a, w').

(** Some character of some line of the text, upper-cased, is a
    configured character. *)
Definition text_matches (props : Props) : Prop :=
  Exists (λ line, Exists (λ c, upper c ∈ chars_of (characters props)) line)
    (split_lines (replace_backslash_n (chars_of (text_content props)))).

(** The guard of [execute] that cancels the operator. *)
Definition cancels (props : Props) (w : World) : Prop :=
  (is_saved w && nonempty (filepath w)) = false ∨
  nonempty (text_content props) = false.

(** * Properties *)

(** ** The model at work *)

Example execute_finishes :
  (execute sample_host (default_props "Hi") saved_world).1 = Return FINISHED.
Proof. vm_compute. reflexivity. Qed.

Example execute_leaves_one_decal :
  map ob_name (objects (execute sample_host (default_props "Hi\nyou") saved_world).2)
  = ["TextDecal"%string] ∧
  map (λ o, length (ob_verts o))
      (objects (execute sample_host (default_props "Hi\nyou") saved_world).2)
  = [20%nat].
Proof. split; vm_compute; reflexivity. Qed.

Example text_to_lines :
  split_lines (replace_backslash_n (chars_of "AB\nC\n"))
  = [chars_of "AB"; chars_of "C"; []].
Proof. reflexivity. Qed.

Example project_directory :
  abspath_blend saved_world = "/home/user/project/"%string ∧
  atlas_path_of saved_world (default_props "Hi")
  = "/home/user/project/font_atlas_1.png"%string.
Proof. split; reflexivity. Qed.

Example upper_examples :
  map upper (chars_of "aZz{ 9") = chars_of "AZZ{ 9".
Proof. reflexivity. Qed.

(** ** Python arithmetic *)

Lemma Z2Q_eq_bool_0 (z : Z) : Qeq_bool (Z2Q z) 0 = (z =? 0).
Proof.
  unfold Qeq_bool, Z2Q, inject_Z; simpl.
  rewrite Z.mul_1_r. reflexivity.
Qed.

Lemma py_mod_ok a b : b ≠ 0 → py_mod a b = Return (a mod b).
Proof. intros Hb. unfold py_mod. destruct (Z.eqb_spec b 0); [lia | reflexivity]. Qed.

Lemma py_floordiv_ok a b : b ≠ 0 → py_floordiv a b = Return (a / b).
Proof. intros Hb. unfold py_floordiv. destruct (Z.eqb_spec b 0); [lia | reflexivity]. Qed.

Lemma py_truediv_Z_ok a b : b ≠ 0 → py_truediv a (Z2Q b) = Return (a / Z2Q b)%Q.
Proof.
  intros Hb. unfold py_truediv. rewrite Z2Q_eq_bool_0.
  destruct (Z.eqb_spec b 0); [lia | reflexivity].
Qed.

(** ** The UV table *)

Lemma uv_cell_ok cols rows i :
  cols ≠ 0 → rows ≠ 0 → uv_cell (cols, rows) i = Return (i mod cols, i / rows).
Proof.
  intros Hc Hr. unfold uv_cell; simpl.
  rewrite py_mod_ok, py_floordiv_ok by assumption. reflexivity.
Qed.

Lemma uv_bounds_ok cols rows i :
  cols ≠ 0 → rows ≠ 0 →
  uv_bounds (cols, rows) i =
    Return {| u_min := Z2Q (i mod cols) / Z2Q cols;
              u_max := Z2Q (i mod cols + 1) / Z2Q cols;
              v_min := 1 - Z2Q (i / rows + 1) / Z2Q rows;
              v_max := 1 - Z2Q (i / rows) / Z2Q rows |}%Q.
Proof.
  intros Hc Hr. unfold uv_bounds. rewrite uv_cell_ok by assumption. simpl.
  rewrite !py_truediv_Z_ok by assumption. reflexivity.
Qed.

(** A failing step of the loop body fails the whole loop, so a table that
    is returned was built by inserting every character. *)
Lemma uv_loop_inv cc chars : ∀ i d d',
  uv_loop cc i chars d = Return d' →
  dom d' = dom d ∪ list_to_set chars ∧
  (∀ c rect, d' !! c = Some rect → d !! c = Some rect ∨ length rect = 4%nat).
Proof.
  induction chars as [|c chars IH]; intros i d d' H; simpl in H.
  - inversion H; subst. split; [set_solver | auto].
  - destruct (uv_bounds cc i) as [b|e]; simpl in H; [|discriminate].
    apply IH in H as [Hdom Hlen]. split.
    + rewrite Hdom, dom_insert_L. set_solver.
    + intros k rect Hk. apply Hlen in Hk as [Hk|Hk]; [|by right].
      destruct (decide (c = k)) as [->|Hne].
      * rewrite lookup_insert_eq in Hk. inversion Hk; subst. by right.
      * rewrite lookup_insert_ne in Hk by done. by left.
Qed.

Lemma uv_loop_total cols rows chars : ∀ i d,
  cols ≠ 0 → rows ≠ 0 → ∃ d', uv_loop (cols, rows) i chars d = Return d'.
Proof.
  induction chars as [|c chars IH]; intros i d Hc Hr; simpl.
  - eauto.
  - rewrite uv_bounds_ok by assumption. simpl. apply IH; assumption.
Qed.

Lemma uv_table_dom cc chars uv :
  uv_table cc chars = Return uv → dom uv = list_to_set chars.
Proof.
  intros H. apply uv_loop_inv in H as [H _]. rewrite H. set_solver.
Qed.

Lemma uv_table_corners cc chars uv c rect :
  uv_table cc chars = Return uv → uv !! c = Some rect → length rect = 4%nat.
Proof.
  intros H Hc. apply uv_loop_inv in H as [_ H].
  apply H in Hc as [Hc|Hc]; [|done]. by rewrite lookup_empty in Hc.
Qed.

Lemma uv_table_mem cc chars uv c :
  uv_table cc chars = Return uv → dict_mem uv c = bool_decide (c ∈ chars).
Proof.
  intros H. unfold dict_mem. apply bool_decide_ext.
  rewrite <- elem_of_dom, (uv_table_dom _ _ _ H). set_solver.
Qed.

Lemma size_list_to_set_remove_dups (l : list ascii) :
  size (list_to_set l : gset ascii) = length (remove_dups l).
Proof.
  rewrite <- (size_list_to_set (C := gset ascii) (remove_dups l)) by apply NoDup_remove_dups.
  f_equal. apply set_eq. intros x.
  rewrite !elem_of_list_to_set, elem_of_remove_dups. reflexivity.
Qed.

(** On a square grid the row of the UV loop is the row of the atlas, and
    the rectangle of every index below [n * n] lies in the unit square. *)
Lemma uv_cell_square n i :
  n ≠ 0 → uv_cell (n, n) i = atlas_cell (n, n) i.
Proof.
  intros Hn. rewrite uv_cell_ok by assumption. unfold atlas_cell; simpl.
  rewrite py_mod_ok, py_floordiv_ok by assumption. reflexivity.
Qed.

Lemma Z2Q_lt a b : a < b → (Z2Q a < Z2Q b)%Q.
Proof. unfold Qlt, Z2Q; simpl. lia. Qed.

Lemma Z2Q_le a b : a <= b → (Z2Q a <= Z2Q b)%Q.
Proof. unfold Qle, Z2Q; simpl. lia. Qed.

Lemma Z2Q_div_le_1 a n : 0 < n → a <= n → (Z2Q a / Z2Q n <= 1)%Q.
Proof.
  intros Hn Ha. apply Qle_shift_div_r.
  - exact (Z2Q_lt 0 n Hn).
  - rewrite Qmult_1_l. exact (Z2Q_le a n Ha).
Qed.

Lemma Z2Q_div_nonneg a n : 0 < n → 0 <= a → (0 <= Z2Q a / Z2Q n)%Q.
Proof.
  intros Hn Ha. apply Qle_shift_div_l.
  - exact (Z2Q_lt 0 n Hn).
  - rewrite Qmult_0_l. exact (Z2Q_le 0 a Ha).
Qed.

Lemma Z2Q_div_mono a b n : 0 < n → a <= b → (Z2Q a / Z2Q n <= Z2Q b / Z2Q n)%Q.
Proof.
  intros Hn Hab. unfold Qdiv. apply Qmult_le_compat_r.
  - exact (Z2Q_le a b Hab).
  - apply Qinv_le_0_compat. apply (Z2Q_le 0 n). lia.
Qed.

Lemma uv_bounds_square_in_unit_square n i :
  0 < n → 0 <= i < n * n →
  ∃ b, uv_bounds (n, n) i = Return b ∧ in_unit_square b.
Proof.
  intros Hn Hi. eexists. split; [apply uv_bounds_ok; lia|].
  assert (0 <= i mod n < n) by (apply Z.mod_pos_bound; lia).
  assert (0 <= i / n < n).
  { split; [apply Z.div_pos; lia | apply Z.div_lt_upper_bound; lia]. }
  unfold in_unit_square; simpl. repeat split.
  - apply Z2Q_div_nonneg; lia.
  - apply Z2Q_div_mono; lia.
  - apply Z2Q_div_le_1; lia.
  - assert (Z2Q (i / n + 1) / Z2Q n <= 1)%Q by (apply Z2Q_div_le_1; lia). lra.
  - assert (Z2Q (i / n) / Z2Q n <= Z2Q (i / n + 1) / Z2Q n)%Q
      by (apply Z2Q_div_mono; lia). lra.
  - assert (0 <= Z2Q (i / n) / Z2Q n)%Q by (apply Z2Q_div_nonneg; lia). lra.
Qed.

(** On a square grid every cell is the cell of exactly one index. *)
Lemma uv_cell_square_bijective n col row :
  0 < n → 0 <= col < n → 0 <= row < n →
  ∃ i, (0 <= i < n * n ∧ uv_cell (n, n) i = Return (col, row)) ∧
       ∀ j, 0 <= j < n * n → uv_cell (n, n) j = Return (col, row) → j = i.
Proof.
  intros Hn Hc Hr. exists (row * n + col). split; [split|].
  - nia.
  - rewrite uv_cell_ok by lia. f_equal. f_equal.
    + rewrite Z.add_comm, Z.mod_add by lia. apply Z.mod_small; lia.
    + rewrite Z.add_comm, Z.div_add by lia. rewrite Z.div_small by lia. lia.
  - intros j Hj H. rewrite uv_cell_ok in H by lia. inversion H; subst.
    rewrite (Z.div_mod j n) at 1 by lia. lia.
Qed.

(** The atlas, which divides by the column count for the row, puts the
    indices below [cols * rows] one to one onto the cells of any grid. *)
Lemma atlas_cell_ok cols rows i :
  cols ≠ 0 → atlas_cell (cols, rows) i = Return (i mod cols, i / cols).
Proof.
  intros Hc. unfold atlas_cell; simpl.
  rewrite py_mod_ok, py_floordiv_ok by assumption. reflexivity.
Qed.

Lemma atlas_cell_in_grid cols rows i :
  0 < cols → 0 < rows → 0 <= i < cols * rows →
  0 <= i mod cols < cols ∧ 0 <= i / cols < rows.
Proof.
  intros Hc Hr Hi. split; [apply Z.mod_pos_bound; lia|].
  split; [apply Z.div_pos; lia | apply Z.div_lt_upper_bound; lia].
Qed.

Lemma atlas_cell_bijective cols rows col row :
  0 < cols → 0 < rows → 0 <= col < cols → 0 <= row < rows →
  ∃ i, (0 <= i < cols * rows ∧ atlas_cell (cols, rows) i = Return (col, row)) ∧
       ∀ j, 0 <= j < cols * rows →
            atlas_cell (cols, rows) j = Return (col, row) → j = i.
Proof.
  intros Hc Hr Hcol Hrow. exists (row * cols + col). split; [split|].
  - nia.
  - rewrite atlas_cell_ok by lia. f_equal. f_equal.
    + rewrite Z.add_comm, Z.mod_add by lia. apply Z.mod_small; lia.
    + rewrite Z.add_comm, Z.div_add by lia. rewrite Z.div_small by lia. lia.
  - intros j Hj H. rewrite atlas_cell_ok in H by lia. inversion H; subst.
    rewrite (Z.div_mod j cols) at 1 by lia. lia.
Qed.

(** A grid without columns has no rectangle for any character. *)
Lemma uv_table_zero_columns rows c chars :
  uv_table (0, rows) (c :: chars) = Raise ZeroDivisionError.
Proof. reflexivity. Qed.

Lemma in_unit_squareb_spec b : in_unit_squareb b = true ↔ in_unit_square b.
Proof.
  unfold in_unit_squareb, in_unit_square.
  rewrite !andb_true_iff, !Qle_bool_iff. tauto.
Qed.

(** C1. For grid dimensions cols > 0, rows > 0 and an index below
    cols*rows the UV rectangle of [create_text_decal] should lie in the
    unit square and the rectangles should tile it. The loop takes the row
    as [i // CELL_COUNT[1]], not [i // CELL_COUNT[0]] as the atlas does:
    on the 3 by 2 grid index 4 is drawn in atlas cell (1, 1) but read from
    cell (1, 2), whose rectangle has v_min = -1/2 and leaves the unit
    square; on the 2 by 3 grid indices 0 and 2 get the same rectangle. *)
Theorem uv_rect_row_uses_row_count :
  atlas_cell (3, 2) 4 = Return (1, 1) ∧
  uv_cell (3, 2) 4 = Return (1, 2) ∧
  (∃ b, uv_bounds (3, 2) 4 = Return b ∧ (v_min b == - (1 # 2))%Q ∧
        ¬ in_unit_square b) ∧
  uv_bounds (2, 3) 0 = uv_bounds (2, 3) 2.
Proof.
  split; [reflexivity|]. split; [reflexivity|]. split; [|reflexivity].
  eexists. split; [reflexivity|]. split; [reflexivity|].
  rewrite <- in_unit_squareb_spec. vm_compute. discriminate.
Qed.

Lemma length_chars_of (s : string) : length (chars_of s) = String.length s.
Proof. induction s as [|c s IH]; simpl; [reflexivity | by rewrite IH]. Qed.

(** C6, as stated, fails when the configured string repeats a character:
    the table is keyed by character, so "AA" yields one rectangle. *)
Lemma uv_count_repeated_character :
  ∃ uv, uv_table (8, 8) (chars_of "AA") = Return uv ∧
        size uv ≠ String.length "AA".
Proof. eexists. split; [reflexivity|]. vm_compute. lia. Qed.

(** C6, amended. On a grid with non-zero dimensions the number of UV
    rectangles [create_text_decal] produces equals the number of distinct
    characters of the configured string; it equals the character count
    when no character is repeated. *)
Theorem uv_count_distinct_characters cols rows (CHARACTERS : string) :
  cols ≠ 0 → rows ≠ 0 →
  ∃ uv, uv_table (cols, rows) (chars_of CHARACTERS) = Return uv ∧
        size uv = length (remove_dups (chars_of CHARACTERS)) ∧
        (NoDup (chars_of CHARACTERS) → size uv = String.length CHARACTERS).
Proof.
  intros Hc Hr.
  destruct (uv_loop_total cols rows (chars_of CHARACTERS) 0 ∅ Hc Hr) as [uv Huv].
  exists uv. split; [exact Huv|].
  assert (Hsize : size uv = length (remove_dups (chars_of CHARACTERS))).
  { rewrite <- size_dom, (uv_table_dom _ _ _ Huv).
    apply size_list_to_set_remove_dups. }
  split; [exact Hsize|].
  intros Hnd. rewrite Hsize, <- length_chars_of. f_equal.
  clear -Hnd. induction Hnd as [|c l Hc Hnd IH]; simpl; [reflexivity|].
  destruct (decide_rel elem_of c l); [contradiction | by rewrite IH].
Qed.

Lemma uv_count_distinct_characters_witness :
  ∃ uv, uv_table (8, 8) (chars_of (characters (default_props "HI"))) = Return uv ∧
        size uv = length (remove_dups (chars_of (characters (default_props "HI")))) ∧
        (NoDup (chars_of (characters (default_props "HI"))) →
         size uv = String.length (characters (default_props "HI"))).
Proof.
  apply (uv_count_distinct_characters 8 8 (characters (default_props "HI"))); lia.
Defined.

(** ** The atlas *)

Lemma draw_loop_spec props font cell_size chars : ∀ i0,
  (cell_count props).1 ≠ 0 →
  ∃ drawn, draw_loop props font cell_size i0 chars = Return drawn ∧
    length drawn = length chars ∧
    ∀ (i : nat) char, chars !! i = Some char →
      drawn !! i = Some
        {| dt_position :=
             (Z2Q ((i0 + Z.of_nat i) mod (cell_count props).1) * cell_size.1
                + (cell_size.1 - Z2Q (font char).1) / 2,
              Z2Q ((i0 + Z.of_nat i) / (cell_count props).1) * cell_size.2
                + (cell_size.2 - Z2Q (font_size props)) / 2
                - Z2Q (symbol_vertical_offset props))%Q;
           dt_char := char;
           dt_fill := color255 (font_color props) |}.
Proof.
  induction chars as [|c chars IH]; intros i0 Hc; simpl.
  - eexists. split; [reflexivity|]. split; [reflexivity|].
    intros i char H. by rewrite lookup_nil in H.
  - destruct (IH (i0 + 1) Hc) as (later & Hl & Hlen & Hnth).
    unfold draw_position, atlas_cell.
    rewrite py_mod_ok, py_floordiv_ok by assumption. simpl.
    rewrite Hl. simpl. eexists. split; [reflexivity|].
    split; [simpl; by rewrite Hlen|].
    intros [|i] char H; simpl in H.
    + inversion H; subst. simpl. rewrite Z.add_0_r. reflexivity.
    + simpl. rewrite (Hnth i char H).
      replace (i0 + 1 + Z.of_nat i) with (i0 + Z.of_nat (S i)) by lia.
      reflexivity.
Qed.

Lemma render_atlas_ok h props font :
  truetype h (font_path props) (font_size props) = Some font →
  (cell_count props).1 ≠ 0 → (cell_count props).2 ≠ 0 →
  ∃ drawn,
    draw_loop props font
      (Z2Q (atlas_dims (atlas_size props)).1 / Z2Q (cell_count props).1,
       Z2Q (atlas_dims (atlas_size props)).2 / Z2Q (cell_count props).2)%Q
      0 (chars_of (characters props)) = Return drawn ∧
    render_atlas h props =
      Return {| im_size := atlas_dims (atlas_size props);
                im_background := color255 (background_color props);
                im_text := drawn |}.
Proof.
  intros Hf Hc Hr. unfold render_atlas, open_font. rewrite Hf. simpl.
  rewrite !py_truediv_Z_ok by assumption. simpl.
  destruct (draw_loop_spec props font
    (Z2Q (atlas_dims (atlas_size props)).1 / Z2Q (cell_count props).1,
     Z2Q (atlas_dims (atlas_size props)).2 / Z2Q (cell_count props).2)%Q
    (chars_of (characters props)) 0 Hc) as (drawn & Hd & _).
  exists drawn. split; [exact Hd|]. rewrite Hd. reflexivity.
Qed.

Lemma render_atlas_size h props image :
  render_atlas h props = Return image →
  im_size image = atlas_dims (atlas_size props).
Proof.
  unfold render_atlas. intros H.
  destruct (open_font _ _ _); simpl in H; [|discriminate].
  destruct (py_truediv _ _); simpl in H; [|discriminate].
  destruct (py_truediv _ _); simpl in H; [|discriminate].
  destruct (draw_loop _ _ _ _ _); simpl in H; [|discriminate].
  inversion H; subst. reflexivity.
Qed.

(** A returning call rendered the atlas and wrote it, once, at the atlas
    path; it touched nothing but the disk and [bpy.data.images]. *)
Lemma generate_font_atlas_inv h props w img w' :
  generate_font_atlas h props w = (Return img, w') →
  ∃ image, render_atlas h props = Return image ∧
    save_raises h (atlas_path_of w props) = None ∧
    disk w' = <[atlas_path_of w props := image]> (disk w) ∧
    same_scene w w'.
Proof.
  unfold generate_font_atlas, mbind, lift, get, try_except, image_save.
  destruct (render_atlas h props) as [image|e]; [|discriminate].
  destruct (save_raises h (atlas_path_of w props)) as [e|] eqn:Hsave.
  - unfold mraise. destruct e; simpl; discriminate.
  - unfold modify. simpl. intros H. exists image.
    split; [reflexivity|]. split; [reflexivity|].
    case_bool_decide as Hin.
    + unfold image_reload, modify, mbind, mret in H. simpl in H.
      destruct Hin as [bi Hbi]. rewrite Hbi in H.
      inversion H; subst. simpl. by repeat split.
    + unfold images_load, modify, mbind, mret in H. simpl in H.
      inversion H; subst. simpl. by repeat split.
Qed.

Lemma generate_font_atlas_ok h props w image :
  render_atlas h props = Return image →
  save_raises h (atlas_path_of w props) = None →
  ∃ img w', generate_font_atlas h props w = (Return img, w').
Proof.
  intros Hr Hs.
  unfold generate_font_atlas, mbind, lift, get, try_except, image_save.
  rewrite Hr, Hs. unfold modify. simpl.
  case_bool_decide as Hin.
  - unfold image_reload, modify, mbind, mret. simpl. eauto.
  - unfold images_load, modify, mbind, mret. simpl. eauto.
Qed.

(** C5. For every character list and cell grid, [generate_font_atlas]
    draws the character at index [i] in grid cell (i mod cols, i div cols):
    at x = (i mod cols) * cell_width + (cell_width - glyph width) / 2 and
    y = (i div cols) * cell_height + (cell_height - font size) / 2 minus
    the vertical offset; the image so drawn is the one a returning call
    has written. *)
Theorem atlas_draw_positions h props font :
  truetype h (font_path props) (font_size props) = Some font →
  (cell_count props).1 ≠ 0 → (cell_count props).2 ≠ 0 →
  let cols := (cell_count props).1 in
  let cell_width := (Z2Q (atlas_dims (atlas_size props)).1 / Z2Q cols)%Q in
  let cell_height :=
    (Z2Q (atlas_dims (atlas_size props)).2 / Z2Q (cell_count props).2)%Q in
  ∃ image, render_atlas h props = Return image ∧
    length (im_text image) = String.length (characters props) ∧
    (∀ (i : nat) char, chars_of (characters props) !! i = Some char →
       im_text image !! i = Some
         {| dt_position :=
              (Z2Q (Z.of_nat i mod cols) * cell_width
                 + (cell_width - Z2Q (font char).1) / 2,
               Z2Q (Z.of_nat i / cols) * cell_height
                 + (cell_height - Z2Q (font_size props)) / 2
                 - Z2Q (symbol_vertical_offset props))%Q;
            dt_char := char;
            dt_fill := color255 (font_color props) |}) ∧
    (∀ w img w', generate_font_atlas h props w = (Return img, w') →
       disk w' !! atlas_path_of w props = Some image).
Proof.
  intros Hf Hc Hr cols cell_width cell_height.
  destruct (render_atlas_ok h props font Hf Hc Hr) as (drawn & Hd & Himg).
  eexists. split; [exact Himg|]. simpl.
  destruct (draw_loop_spec props font (cell_width, cell_height)
              (chars_of (characters props)) 0 Hc) as (drawn' & Hd' & Hlen & Hnth).
  subst cols cell_width cell_height.
  rewrite Hd in Hd'. inversion Hd'; subst drawn'.
  split; [by rewrite Hlen, length_chars_of|]. split.
  - intros i char Hi. rewrite (Hnth i char Hi). reflexivity.
  - intros w img w' Hg.
    apply generate_font_atlas_inv in Hg as (image & Hr' & _ & Hdisk & _).
    rewrite Himg in Hr'. inversion Hr'; subst image.
    rewrite Hdisk. apply lookup_insert_eq.
Qed.

Lemma atlas_draw_positions_witness :
  ∃ image, render_atlas sample_host (default_props "HI") = Return image ∧
    im_text image !! 9%nat = Some
      {| dt_position := (Z2Q 1 * (Z2Q 1024 / Z2Q 8) + (Z2Q 1024 / Z2Q 8 - Z2Q 50) / 2,
                         Z2Q 1 * (Z2Q 1024 / Z2Q 8) + (Z2Q 1024 / Z2Q 8 - Z2Q 95) / 2
                           - Z2Q 15)%Q;
         dt_char := "J"; dt_fill := (255, 255, 255) |}.
Proof.
  destruct (atlas_draw_positions sample_host (default_props "HI") (λ _, (50, 70))
              eq_refl ltac:(simpl; lia) ltac:(simpl; lia))
    as (image & Hr & _ & Hnth & _).
  exists image. split; [exact Hr|]. exact (Hnth 9%nat "J"%char eq_refl).
Defined.

(** ** Paths *)

Lemma chars_of_append (a b : string) :
  list_ascii_of_string (a +:+ b) = list_ascii_of_string a ++ list_ascii_of_string b.
Proof. induction a as [|c a IH]; simpl; [reflexivity | by rewrite IH]. Qed.

Lemma nonempty_chars (a : string) :
  nonempty a = false → a = EmptyString.
Proof. by destruct a. Qed.

Lemma has_sep_app (a b : list ascii) : has_sep (a ++ b) = has_sep a || has_sep b.
Proof. apply existsb_app. Qed.

Lemma basename_chars_no_sep (b : list ascii) :
  has_sep b = false → basename_chars b = b.
Proof. intros H. destruct b as [|c b]; [reflexivity|]. cbn [basename_chars]. by rewrite H. Qed.

(** After a prefix that is empty or ends with a separator, the base name
    of a path is the base name of the rest. *)
Lemma basename_chars_after_dir (a b : list ascii) :
  (a = [] ∨ ∃ a', a = a' ++ [sep]) → has_sep b = false →
  basename_chars (a ++ b) = b.
Proof.
  intros Ha Hb. induction a as [|c a IH].
  - apply basename_chars_no_sep, Hb.
  - destruct Ha as [Ha|[a' Ha]]; [discriminate|].
    change (basename_chars ((c :: a) ++ b))
      with (if has_sep ((c :: a) ++ b) then basename_chars (a ++ b) else (c :: a) ++ b).
    assert (Hs : has_sep ((c :: a) ++ b) = true).
    { rewrite has_sep_app, Ha, has_sep_app. simpl. rewrite orb_true_r. reflexivity. }
    rewrite Hs. apply IH.
    destruct a' as [|c' a'']; simpl in Ha; inversion Ha; subst; eauto.
Qed.

Lemma endswith_sep_spec (a : string) :
  endswith_sep a = true → ∃ a', list_ascii_of_string a = a' ++ [sep].
Proof.
  unfold endswith_sep. intros H.
  destruct (rev (list_ascii_of_string a)) as [|c r] eqn:Hrev; [discriminate|].
  apply Ascii.eqb_eq in H. subst c. exists (rev r).
  rewrite <- (rev_involutive (list_ascii_of_string a)), Hrev. reflexivity.
Qed.

(** [bpy.path.abspath("//")] is empty or ends with a separator. *)
Lemma abspath_blend_dir w :
  list_ascii_of_string (abspath_blend w) = [] ∨
  ∃ a', list_ascii_of_string (abspath_blend w) = a' ++ [sep].
Proof.
  unfold abspath_blend, os_path_join. simpl startswith_sep. cbv iota.
  set (d := os_path_dirname (filepath w)).
  destruct (nonempty d) eqn:Hne; simpl.
  - destruct (endswith_sep d) eqn:He.
    + right. rewrite chars_of_append, app_nil_r. by apply endswith_sep_spec.
    + right. exists (list_ascii_of_string d). by rewrite chars_of_append.
  - left. apply nonempty_chars in Hne. rewrite Hne. reflexivity.
Qed.

Lemma startswith_sep_no_sep (b c : string) :
  has_sep (list_ascii_of_string b) = false → startswith_sep (b +:+ c) = true →
  b = EmptyString.
Proof.
  destruct b as [|x b]; [reflexivity|]. simpl. intros H Hs.
  apply Ascii.eqb_eq in Hs. subst x. discriminate.
Qed.

(** For an atlas name without a separator the atlas path is the project
    directory followed by the file name. *)
Lemma atlas_path_plain_name w props :
  has_sep (chars_of (atlas_name props)) = false →
  atlas_path_of w props = (abspath_blend w +:+ atlas_name props +:+ ".png")%string ∧
  os_path_basename (atlas_path_of w props) = (atlas_name props +:+ ".png")%string.
Proof.
  intros Hn.
  assert (Hpath : atlas_path_of w props
                  = (abspath_blend w +:+ atlas_name props +:+ ".png")%string).
  { unfold atlas_path_of, os_path_join.
    destruct (startswith_sep (atlas_name props +:+ ".png")) eqn:Hs.
    - pose proof (startswith_sep_no_sep _ _ Hn Hs) as He.
      rewrite He in Hs. discriminate.
    - destruct (nonempty (abspath_blend w)) eqn:Hne; simpl.
      + destruct (abspath_blend_dir w) as [He|[a' He]].
        * destruct (abspath_blend w); [discriminate | discriminate].
        * unfold endswith_sep. rewrite He, rev_app_distr. simpl. reflexivity.
      + reflexivity. }
  split; [exact Hpath|].
  rewrite Hpath. unfold os_path_basename. rewrite chars_of_append.
  rewrite basename_chars_after_dir.
  - apply string_of_list_ascii_of_string.
  - apply abspath_blend_dir.
  - rewrite chars_of_append, has_sep_app. unfold chars_of in Hn. rewrite Hn. reflexivity.
Qed.

(** C7, as stated, fails for an absolute atlas name: [os.path.join] drops
    the project directory, and the one file written is /tmp/atlas.png
    while the project lies in /home/user/project. *)
Lemma atlas_written_outside_project :
  ∃ img w', generate_font_atlas sample_host (sample_props "/tmp/atlas" "HI")
              saved_world = (Return img, w') ∧
    (∀ p, is_Some (disk w' !! p) → p = "/tmp/atlas.png"%string) ∧
    is_Some (disk w' !! "/tmp/atlas.png"%string) ∧
    os_path_dirname "/tmp/atlas.png" = "/tmp"%string ∧
    os_path_dirname (filepath saved_world) = "/home/user/project"%string.
Proof.
  destruct (generate_font_atlas sample_host (sample_props "/tmp/atlas" "HI") saved_world)
    as [o w'] eqn:Hg.
  assert (Ho : o = Return (Some "atlas.png"%string)).
  { apply (f_equal fst) in Hg. simpl in Hg. rewrite <- Hg. vm_compute. reflexivity. }
  subst o. exists (Some "atlas.png"%string), w'. split; [reflexivity|].
  apply generate_font_atlas_inv in Hg as (image & _ & _ & Hdisk & _).
  change (atlas_path_of saved_world (sample_props "/tmp/atlas" "HI"))
    with "/tmp/atlas.png"%string in Hdisk.
  rewrite Hdisk. split; [|split; [|split; reflexivity]].
  - intros p [x Hp]. destruct (decide ("/tmp/atlas.png"%string = p)) as [|Hne]; [done|].
    rewrite lookup_insert_ne in Hp by done. simpl in Hp. by rewrite lookup_empty in Hp.
  - rewrite lookup_insert_eq. eauto.
Qed.

(** C7, amended. A returning [generate_font_atlas] has written exactly one
    file, at [os.path.join(project directory, atlas name + ".png")], an
    image whose dimensions are the configured atlas size; when the atlas
    name has no path separator this is the file named atlas name + ".png"
    in the directory of the project file. *)
Theorem atlas_file_written h props w img w' :
  generate_font_atlas h props w = (Return img, w') →
  ∃ image,
    disk w' = <[atlas_path_of w props := image]> (disk w) ∧
    im_size image = atlas_dims (atlas_size props) ∧
    atlas_path_of w props
      = os_path_join (abspath_blend w) (atlas_name props +:+ ".png") ∧
    (has_sep (chars_of (atlas_name props)) = false →
     atlas_path_of w props = (abspath_blend w +:+ atlas_name props +:+ ".png")%string ∧
     os_path_basename (atlas_path_of w props) = (atlas_name props +:+ ".png")%string).
Proof.
  intros Hg. apply generate_font_atlas_inv in Hg as (image & Hr & _ & Hdisk & _).
  exists image. split; [exact Hdisk|]. split; [by eapply render_atlas_size|].
  split; [reflexivity|]. apply atlas_path_plain_name.
Qed.

Lemma atlas_file_written_witness :
  ∃ image,
    disk (generate_font_atlas sample_host (default_props "HI") saved_world).2
      = <["/home/user/project/font_atlas_1.png"%string := image]> ∅ ∧
    im_size image = (1024, 1024).
Proof.
  destruct (atlas_file_written sample_host (default_props "HI") saved_world
              (Some "font_atlas_1.png"%string)
              (generate_font_atlas sample_host (default_props "HI") saved_world).2)
    as (image & Hdisk & Hsize & _).
  - vm_compute. reflexivity.
  - exists image. split; [exact Hdisk | exact Hsize].
Defined.

(** ** The operator *)

(** The guard of [execute]: the project is unsaved or the text is empty. *)
Lemma execute_cancelled h props w :
  cancels props w →
  ∃ msg, execute h props w
         = (Return CANCELLED, set_reports (reports w ++ [(ERROR, msg)]) w).
Proof.
  intros H. unfold cancels in H. unfold execute, mbind, get, report, modify, mret.
  destruct (is_saved w && nonempty (filepath w)) eqn:Hs.
  - destruct H as [H|H]; [discriminate|]. rewrite H. simpl. eauto.
  - simpl. eauto.
Qed.

Lemma execute_cancelled_inv h props w w' :
  execute h props w = (Return CANCELLED, w') → cancels props w.
Proof.
  unfold execute, mbind, get, cancels. intros H.
  destruct (is_saved w && nonempty (filepath w)); [|by left].
  destruct (nonempty (text_content props)); [|by right].
  simpl in H.
  destruct (generate_font_atlas h props w) as [[img|e] w1]; [|discriminate].
  destruct (create_text_decal h props img (text_content props) w1) as [[[]|e] w2];
    discriminate.
Qed.

(** C8. When the operator returns CANCELLED nothing was rasterized,
    written, loaded or created: the disk, the images, the materials and
    the scene objects are those it started from, and the only trace is
    the one error report. *)
Theorem execute_cancelled_changes_nothing h props w w' :
  execute h props w = (Return CANCELLED, w') →
  disk w' = disk w ∧ images w' = images w ∧ materials w' = materials w ∧
  objects w' = objects w ∧
  ∃ msg, w' = set_reports (reports w ++ [(ERROR, msg)]) w.
Proof.
  intros H. pose proof (execute_cancelled_inv _ _ _ _ H) as Hc.
  destruct (execute_cancelled h props w Hc) as [msg Hm].
  rewrite Hm in H. inversion H; subst w'. simpl. eauto 10.
Qed.

Lemma execute_cancelled_changes_nothing_witness :
  disk (execute sample_host (default_props "") saved_world).2 = disk saved_world ∧
  objects (execute sample_host (default_props "HI") unsaved_world).2
    = objects unsaved_world.
Proof.
  split.
  - apply (execute_cancelled_changes_nothing sample_host (default_props "") saved_world
             (execute sample_host (default_props "") saved_world).2).
    reflexivity.
  - apply (execute_cancelled_changes_nothing sample_host (default_props "HI")
             unsaved_world
             (execute sample_host (default_props "HI") unsaved_world).2).
    reflexivity.
Defined.

(** ** Character widths *)

Lemma widths_loop_inv font th chars : ∀ d d',
  widths_loop font th chars d = Return d' →
  dom d' = dom d ∪ list_to_set chars ∧
  (∀ c wd, d' !! c = Some wd →
     d !! c = Some wd ∨ (c ∈ chars ∧ measured_width font th c = Return wd)).
Proof.
  induction chars as [|c chars IH]; intros d d' H; simpl in H.
  - inversion H; subst. split; [set_solver | auto].
  - destruct (measured_width font th c) as [wd|e] eqn:Hm; simpl in H; [|discriminate].
    apply IH in H as [Hdom Hval]. split.
    + rewrite Hdom, dom_insert_L. set_solver.
    + intros k x Hk. apply Hval in Hk as [Hk|[Hin Hk]].
      * destruct (decide (c = k)) as [->|Hne].
        -- rewrite lookup_insert_eq in Hk. inversion Hk; subst.
           right. split; [left | exact Hm].
        -- rewrite lookup_insert_ne in Hk by done. by left.
      * right. split; [by right | exact Hk].
Qed.

Lemma calculate_character_widths_inv h fp chars th font cw :
  truetype h fp th = Some font →
  calculate_character_widths h fp chars th = Return cw →
  dom cw = list_to_set chars ∧
  (∀ c wd, cw !! c = Some wd → measured_width font th c = Return wd).
Proof.
  intros Hf H. unfold calculate_character_widths, open_font in H.
  rewrite Hf in H. simpl in H. apply widths_loop_inv in H as [Hdom Hval].
  split; [rewrite Hdom; set_solver|].
  intros c wd Hc. apply Hval in Hc as [Hc|[_ Hc]]; [|exact Hc].
  by rewrite lookup_empty in Hc.
Qed.

Lemma unit_widths_dom (chars : list ascii) : ∀ d : gmap ascii Q,
  dom (fold_left (λ d char, <[char := 1%Q]> d) chars d) = dom d ∪ list_to_set chars.
Proof.
  induction chars as [|c chars IH]; intros d; simpl; [set_solver|].
  rewrite IH, dom_insert_L. set_solver.
Qed.

(** Both ways of building [char_widths] give a width to exactly the
    configured characters. *)
Lemma decal_char_widths_dom h props cw :
  decal_char_widths h props = Return cw →
  dom cw = list_to_set (chars_of (characters props)).
Proof.
  unfold decal_char_widths. destruct (nonempty (font_path props)).
  - unfold calculate_character_widths. intros H.
    destruct (open_font h _ _) as [font|e]; simpl in H; [|discriminate].
    apply widths_loop_inv in H as [H _]. rewrite H. set_solver.
  - intros H. inversion H; subst. unfold unit_widths.
    rewrite unit_widths_dom. set_solver.
Qed.

Lemma tables_same_keys h props uv cw c :
  uv_table (cell_count props) (chars_of (characters props)) = Return uv →
  decal_char_widths h props = Return cw →
  is_Some (uv !! c) → is_Some (cw !! c).
Proof.
  intros Huv Hcw. rewrite <- !elem_of_dom.
  by rewrite (uv_table_dom _ _ _ Huv), (decal_char_widths_dom _ _ _ Hcw).
Qed.

(** ** Placing one character *)

Lemma alter_last {A} (f : A → A) (l : list A) (x : A) :
  alter f (length l) (l ++ [x]) = l ++ [f x].
Proof. induction l as [|y l IH]; simpl; [reflexivity | by rewrite <- IH]. Qed.

Lemma update_object_last f objs x w :
  update_object (length objs) f (set_objects (objs ++ [x]) w)
  = (Return tt, set_objects (objs ++ [f x]) w).
Proof.
  unfold update_object, modify. simpl. by rewrite alter_last.
Qed.

Lemma get_object_last objs x w :
  get_object (length objs) (set_objects (objs ++ [x]) w)
  = (Return x, set_objects (objs ++ [x]) w).
Proof.
  unfold get_object, mbind, get, lift, list_get. simpl.
  rewrite lookup_app_r by lia. rewrite Nat.sub_diag. reflexivity.
Qed.

Lemma quad_uvs_total rect wd :
  length rect = 4%nat → ∃ uvs, quad_uvs rect wd = Return uvs ∧ length uvs = 4%nat.
Proof.
  intros H. destruct rect as [|c0 [|c1 [|c2 [|c3 [|c4 rect]]]]]; try discriminate.
  eexists. split; reflexivity.
Qed.

(** A character whose upper-case form has a rectangle and a width adds
    one plane at the end of the scene and advances the cursor by the
    width. *)
Lemma place_char_spec uv cw mat cl lc c rect wd uvs w :
  uv !! upper c = Some rect → cw !! upper c = Some wd →
  quad_uvs rect wd = Return uvs →
  place_char uv cw mat cl lc c w
  = (Return (length (objects w), (lc + wd)%Q),
     set_objects (objects w ++ [char_quad wd mat cl lc uvs]) w).
Proof.
  intros Hrect Hwd Huvs. unfold place_char, mbind at 1, get.
  unfold mbind at 1, modify at 1.
  unfold mbind at 1, lift at 1, dict_get at 1. rewrite Hwd.
  repeat (unfold mbind at 1; rewrite update_object_last).
  unfold mbind at 1, lift at 1, dict_get at 1. rewrite Hrect.
  unfold quad_uvs in Huvs.
  destruct (uv_center rect) as [center|e] eqn:Hcenter; cbn [obind] in Huvs;
    [|discriminate].
  unfold mbind at 1, lift at 1.
  unfold mbind at 1. rewrite get_object_last.
  unfold mbind at 1, lift at 1.
  change (ob_uvs _) with (ob_uvs (primitive_plane_add (0, 0, 0)%Q)).
  rewrite Huvs.
  repeat (unfold mbind at 1; rewrite update_object_last).
  unfold mbind at 1, lift at 1, dict_get at 1. rewrite Hwd.
  reflexivity.
Qed.

Lemma char_quad_covers wd mat cl lc uvs :
  quad_covers (char_quad wd mat cl lc uvs) (lc, (lc + wd)%Q).
Proof.
  unfold quad_covers, mean_x, x_coords, py_sum. simpl. split.
  - repeat constructor; ring.
  - unfold Z2Q, inject_Z. field.
Qed.

(** ** Laying out a line *)

Lemma fold_left_Qplus_shift (ws : list Q) : ∀ a,
  (fold_left Qplus ws a == a + py_sum ws)%Q.
Proof.
  unfold py_sum. induction ws as [|x ws IH]; intros a; simpl; [ring|].
  rewrite (IH (a + x)%Q), (IH (0 + x)%Q). ring.
Qed.

Lemma spans_tile (ws : list Q) : ∀ a b,
  (fold_left Qplus ws a == b)%Q → tiles_interval a b (spans a ws).
Proof.
  induction ws as [|x ws IH]; intros a b H; simpl in *; [exact H|].
  split; [reflexivity | by apply IH].
Qed.

Section Layout.
Variables (uv : gmap ascii (list (Q * Q))) (cw : gmap ascii Q).
Variables (mat : string).
Hypothesis corners : ∀ c rect, uv !! c = Some rect → length rect = 4%nat.
Hypothesis same_keys : ∀ c, is_Some (uv !! c) → is_Some (cw !! c).

(** The loop over a line creates one quad per matched character, at the
    end of the scene, and the quads cover the consecutive intervals
    that start at the initial cursor. *)
Lemma place_line_spec cl line : ∀ lc created w,
  ∃ ws quads,
    matched_widths uv cw line = Return ws ∧
    place_line uv cw mat cl line lc created w
    = (Return (fold_left Qplus ws lc,
               created ++ seq (length (objects w)) (length quads)),
       set_objects (objects w ++ quads) w) ∧
    length quads = length ws ∧
    Forall2 quad_covers quads (spans lc ws).
Proof.
  induction line as [|c line IH]; intros lc created w.
  - exists [], []. simpl. unfold mret. rewrite !app_nil_r.
    repeat split; [by destruct w | constructor].
  - simpl. unfold dict_mem. case_bool_decide as Hin.
    + destruct Hin as [rect Hrect].
      destruct (same_keys _ (ex_intro _ rect Hrect)) as [wd Hwd].
      destruct (quad_uvs_total rect wd (corners _ _ Hrect)) as (uvs & Huvs & _).
      unfold mbind at 1.
      rewrite (place_char_spec _ _ _ _ _ _ _ _ _ _ Hrect Hwd Huvs). simpl.
      destruct (IH (lc + wd)%Q (created ++ [length (objects w)])
                  (set_objects (objects w ++ [char_quad wd mat cl lc uvs]) w))
        as (ws & quads & Hws & Hpl & Hlen & Hcov).
      exists (wd :: ws), (char_quad wd mat cl lc uvs :: quads).
      unfold dict_get at 1. rewrite Hwd, Hws. simpl.
      split; [reflexivity|]. split; [|split].
      * rewrite Hpl. simpl. rewrite length_app, <- !app_assoc. simpl.
        rewrite Nat.add_1_r. reflexivity.
      * by rewrite Hlen.
      * constructor; [apply char_quad_covers | exact Hcov].
    + apply IH.
Qed.

(** Every line runs from cursor.x - total_width / 2 to
    cursor.x + total_width / 2. *)
Lemma place_lines_spec lines : ∀ cl created w,
  ∃ quadss,
    place_lines uv cw mat lines cl created w
    = (Return (created ++ seq (length (objects w)) (length (concat quadss))),
       set_objects (objects w ++ concat quadss) w) ∧
    Forall2 (λ line quads, ∃ ws tw ivs,
               matched_widths uv cw line = Return ws ∧
               total_width uv cw line = Return tw ∧
               length quads = length ws ∧
               Forall2 quad_covers quads ivs ∧
               Forall2 (λ iv wd, iv.2 = (iv.1 + wd)%Q) ivs ws ∧
               tiles_interval (cl.1.1 - tw / 2)%Q (cl.1.1 + tw / 2)%Q ivs)
            lines quadss.
Proof.
  induction lines as [|line lines IH]; intros cl created w.
  - exists []. simpl. unfold mret. rewrite !app_nil_r.
    split; [by destruct w | constructor].
  - simpl. unfold total_width.
    destruct (place_line_spec cl line (line_start cl
                (py_sum (match matched_widths uv cw line with
                         | Return ws => ws | Raise _ => [] end))) created w)
      as (ws & quads & Hws & Hpl & Hlen & Hcov).
    rewrite Hws in *. simpl obind. unfold mbind at 1, lift at 1.
    unfold mbind at 1. rewrite Hpl. simpl.
    destruct (IH (cl.1.1, (cl.1.2 - 1)%Q, cl.2)
                (created ++ seq (length (objects w)) (length quads))
                (set_objects (objects w ++ quads) w))
      as (quadss & Hpls & Hall).
    exists (quads :: quadss). split.
    + rewrite Hpls. simpl. rewrite !length_app, <- !app_assoc, seq_app.
      reflexivity.
    + constructor; [|exact Hall].
      exists ws, (py_sum ws), (spans (line_start cl (py_sum ws)) ws).
      split; [exact Hws|]. split; [by rewrite Hws|].
      split; [exact Hlen|]. split; [exact Hcov|]. split.
      * generalize (line_start cl (py_sum ws)). clear.
        induction ws as [|x ws IHws]; intros a; simpl; constructor; auto.
      * apply spans_tile. rewrite fold_left_Qplus_shift.
        unfold line_start. field.
Qed.
End Layout.

(** C2. For every line of the text the quads are laid side by side from
    cursor.x - total_width / 2: each quad of width w covers
    [start, start + w], is centred at start + w / 2 and is followed by the
    next one at start + w, so that the line spans
    [cursor.x - total_width / 2, cursor.x + total_width / 2] and its
    midpoint is the cursor's x, whatever the line's row. *)
Theorem lines_centered_at_cursor h props uv cw mat lines cl created w :
  uv_table (cell_count props) (chars_of (characters props)) = Return uv →
  decal_char_widths h props = Return cw →
  ∃ quadss,
    place_lines uv cw mat lines cl created w
    = (Return (created ++ seq (length (objects w)) (length (concat quadss))),
       set_objects (objects w ++ concat quadss) w) ∧
    Forall2 (λ line quads, ∃ ws tw ivs,
               matched_widths uv cw line = Return ws ∧
               total_width uv cw line = Return tw ∧
               length quads = length ws ∧
               Forall2 quad_covers quads ivs ∧
               Forall2 (λ iv wd, iv.2 = (iv.1 + wd)%Q) ivs ws ∧
               tiles_interval (cl.1.1 - tw / 2)%Q (cl.1.1 + tw / 2)%Q ivs)
            lines quadss.
Proof.
  intros Huv Hcw. apply place_lines_spec.
  - intros c rect. apply (uv_table_corners _ _ _ _ _ Huv).
  - intros c. apply (tables_same_keys _ _ _ _ _ Huv Hcw).
Qed.

Lemma lines_centered_at_cursor_witness :
  ∃ quadss,
    place_lines sample_uv sample_widths "font_atlas_1"
      [chars_of "Hi"; chars_of "yo!"] (3, 2, 0)%Q [] saved_world
    = (Return ([] ++ seq 0 (length (concat quadss))),
       set_objects ([] ++ concat quadss) saved_world) ∧
    Forall2 (λ line quads, ∃ ws tw ivs,
               matched_widths sample_uv sample_widths line = Return ws ∧
               total_width sample_uv sample_widths line = Return tw ∧
               length quads = length ws ∧
               Forall2 quad_covers quads ivs ∧
               Forall2 (λ iv wd, iv.2 = (iv.1 + wd)%Q) ivs ws ∧
               tiles_interval (3 - tw / 2)%Q (3 + tw / 2)%Q ivs)
            [chars_of "Hi"; chars_of "yo!"] quadss.
Proof.
  apply (lines_centered_at_cursor sample_host (default_props "HI") sample_uv
           sample_widths "font_atlas_1" [chars_of "Hi"; chars_of "yo!"]
           (3, 2, 0)%Q [] saved_world).
  - vm_compute. reflexivity.
  - vm_compute. reflexivity.
Defined.

(** ** The width of a line *)

Lemma unit_widths_lookup (chars : list ascii) : ∀ (d : gmap ascii Q) c wd,
  fold_left (λ d char, <[char := 1%Q]> d) chars d !! c = Some wd →
  d !! c = Some wd ∨ wd = 1%Q.
Proof.
  induction chars as [|x chars IH]; intros d c wd H; simpl in H; [by left|].
  apply IH in H as [H|H]; [|by right].
  destruct (decide (x = c)) as [->|Hne].
  - rewrite lookup_insert_eq in H. inversion H. by right.
  - rewrite lookup_insert_ne in H by done. by left.
Qed.

Lemma matched_cons_in chars c line :
  upper c ∈ chars → matched chars (c :: line) = c :: matched chars line.
Proof. intros H. unfold matched. by rewrite filter_cons_True. Qed.

Lemma matched_cons_out chars c line :
  upper c ∉ chars → matched chars (c :: line) = matched chars line.
Proof. intros H. unfold matched. by rewrite filter_cons_False. Qed.

(** The widths the code sums are the table's widths of the upper-cased
    matched characters. *)
Lemma matched_widths_spec cc chars uv cw (f : ascii → Outcome Q) :
  uv_table cc chars = Return uv →
  (∀ c, c ∈ chars → dict_get cw c = f c) →
  ∀ line,
    matched_widths uv cw line = traverse f (map upper (matched chars line)).
Proof.
  intros Huv Hf. induction line as [|c line IH]; [reflexivity|].
  simpl. rewrite (uv_table_mem _ _ _ _ Huv). case_bool_decide as Hin.
  - rewrite matched_cons_in by exact Hin. simpl. rewrite (Hf _ Hin), IH. reflexivity.
  - rewrite matched_cons_out by exact Hin. exact IH.
Qed.

Lemma traverse_const {A B} (y : B) (l : list A) :
  traverse (λ _, Return y) l = Return (map (λ _, y) l).
Proof. induction l as [|x l IH]; simpl; [reflexivity | by rewrite IH]. Qed.

(** C3, as stated, fails on a line with a character outside the
    configured set: '#' has a measured width in the font but adds nothing
    to the total width of "A#". *)
Lemma total_width_skips_unmatched :
  ∃ tw sw,
    total_width sample_uv sample_widths (chars_of "A#") = Return tw ∧
    line_width_spec (λ _, (50, 70)) 95 (chars_of "A#") = Return sw ∧
    ¬ (tw == sw)%Q.
Proof.
  eexists. eexists. split; [vm_compute; reflexivity|].
  split; [vm_compute; reflexivity|].
  intros H. vm_compute in H. discriminate.
Qed.

(** C3, amended. The total width of a line is the sum of the widths of
    the upper-case forms of those characters of the line whose upper-case
    form is configured; other characters add nothing. With a font path
    the widths are the ones [calculate_character_widths] measured, without
    one every matched character counts for one. *)
Theorem total_width_sums_matched_widths h props uv cw line :
  uv_table (cell_count props) (chars_of (characters props)) = Return uv →
  decal_char_widths h props = Return cw →
  let chars := chars_of (characters props) in
  (∀ font, nonempty (font_path props) = true →
     truetype h (font_path props) (font_size props) = Some font →
     total_width uv cw line
     = line_width_spec font (font_size props) (map upper (matched chars line))) ∧
  (nonempty (font_path props) = false →
     total_width uv cw line
     = Return (py_sum (map (λ _, 1%Q) (matched chars line)))).
Proof.
  intros Huv Hcw chars. split.
  - intros font Hne Hf. unfold decal_char_widths in Hcw. rewrite Hne in Hcw.
    destruct (calculate_character_widths_inv _ _ _ _ _ _ Hf Hcw) as [Hdom Hval].
    unfold total_width, line_width_spec, measured_widths.
    rewrite (matched_widths_spec _ _ _ _ (measured_width font (font_size props)) Huv);
      [reflexivity|].
    intros c Hc. unfold dict_get.
    assert (His : is_Some (cw !! c)).
    { rewrite <- elem_of_dom, Hdom. set_solver. }
    destruct His as [wd Hwd]. rewrite Hwd. symmetry. by apply Hval.
  - intros Hne. unfold decal_char_widths in Hcw. rewrite Hne in Hcw.
    inversion Hcw; subst cw. unfold total_width.
    rewrite (matched_widths_spec _ _ _ _ (λ _, Return 1%Q) Huv).
    + rewrite traverse_const. simpl. by rewrite map_map.
    + intros c Hc. unfold dict_get, unit_widths.
      assert (His : is_Some (fold_left (λ d char, <[char := 1%Q]> d) chars
                               (∅ : gmap ascii Q) !! c)).
      { rewrite <- elem_of_dom, unit_widths_dom. set_solver. }
      destruct His as [wd Hwd]. fold chars. rewrite Hwd.
      apply unit_widths_lookup in Hwd as [Hwd| ->]; [|reflexivity].
      by rewrite lookup_empty in Hwd.
Qed.

Lemma total_width_sums_matched_widths_witness :
  total_width sample_uv sample_widths (chars_of "a#B")
  = line_width_spec (λ _, (50, 70)) 95 (chars_of "AB").
Proof.
  apply (total_width_sums_matched_widths sample_host (default_props "HI")
           sample_uv sample_widths (chars_of "a#B")).
  - vm_compute. reflexivity.
  - vm_compute. reflexivity.
  - reflexivity.
  - reflexivity.
Defined.

(** ** Matching characters *)

Lemma upper_idem c : upper (upper c) = upper c.
Proof. destruct c as [[] [] [] [] [] [] [] []]; reflexivity. Qed.

Lemma place_char_upper uv cw mat cl lc c :
  place_char uv cw mat cl lc (upper c) = place_char uv cw mat cl lc c.
Proof. unfold place_char. rewrite upper_idem. reflexivity. Qed.

Lemma place_line_upper uv cw mat cl line : ∀ lc created w,
  place_line uv cw mat cl (map upper line) lc created w
  = place_line uv cw mat cl line lc created w.
Proof.
  induction line as [|c line IH]; intros lc created w; [reflexivity|].
  simpl. rewrite upper_idem, place_char_upper.
  destruct (dict_mem uv (upper c)); [|apply IH].
  unfold mbind. destruct (place_char uv cw mat cl lc c w) as [[r|e] w1];
    [apply IH | reflexivity].
Qed.

Lemma matched_widths_upper uv cw line :
  matched_widths uv cw (map upper line) = matched_widths uv cw line.
Proof.
  induction line as [|c line IH]; [reflexivity|].
  simpl. rewrite upper_idem, IH. reflexivity.
Qed.

Lemma place_line_matched cc chars uv cw mat cl line :
  uv_table cc chars = Return uv →
  ∀ lc created w,
    place_line uv cw mat cl (matched chars line) lc created w
    = place_line uv cw mat cl line lc created w.
Proof.
  intros Huv. induction line as [|c line IH]; intros lc created w; [reflexivity|].
  destruct (decide (upper c ∈ chars)) as [Hin|Hout].
  - rewrite matched_cons_in by exact Hin. simpl.
    destruct (dict_mem uv (upper c)); [|apply IH].
    unfold mbind. destruct (place_char uv cw mat cl lc c w) as [[r|e] w1];
      [apply IH | reflexivity].
  - rewrite matched_cons_out by exact Hout. simpl.
    rewrite (uv_table_mem _ _ _ _ Huv), bool_decide_eq_false_2 by exact Hout.
    apply IH.
Qed.

Lemma matched_widths_matched cc chars uv cw line :
  uv_table cc chars = Return uv →
  matched_widths uv cw (matched chars line) = matched_widths uv cw line.
Proof.
  intros Huv. induction line as [|c line IH]; [reflexivity|].
  destruct (decide (upper c ∈ chars)) as [Hin|Hout].
  - rewrite matched_cons_in by exact Hin. simpl. by rewrite IH.
  - rewrite matched_cons_out by exact Hout. simpl.
    by rewrite (uv_table_mem _ _ _ _ Huv), bool_decide_eq_false_2.
Qed.

(** C9. Matching is case-insensitive and unmatched characters are
    skipped: a line is laid out, and measured, exactly as the upper-case
    forms of its characters whose upper-case form is configured; the quad
    of a matched character is built from the rectangle and the width of
    its upper-case form; a character whose upper-case form is not
    configured creates no quad and adds no width. *)
Theorem matching_ignores_case cc chars uv cw mat cl :
  uv_table cc chars = Return uv →
  (∀ line lc created w,
     place_line uv cw mat cl line lc created w
     = place_line uv cw mat cl (map upper (matched chars line)) lc created w) ∧
  (∀ line,
     matched_widths uv cw line
     = matched_widths uv cw (map upper (matched chars line))) ∧
  (∀ c lc created w, upper c ∈ chars →
     ∃ rect, uv !! upper c = Some rect ∧
       ∀ wd uvs, cw !! upper c = Some wd → quad_uvs rect wd = Return uvs →
         place_line uv cw mat cl [c] lc created w
         = (Return ((lc + wd)%Q, created ++ [length (objects w)]),
            set_objects (objects w ++ [char_quad wd mat cl lc uvs]) w)) ∧
  (∀ c line lc created w, upper c ∉ chars →
     place_line uv cw mat cl (c :: line) lc created w
     = place_line uv cw mat cl line lc created w ∧
     matched_widths uv cw (c :: line) = matched_widths uv cw line).
Proof.
  intros Huv. split; [|split; [|split]].
  - intros line lc created w.
    by rewrite place_line_upper, (place_line_matched _ _ _ _ _ _ _ Huv).
  - intros line.
    by rewrite matched_widths_upper, (matched_widths_matched _ _ _ _ _ Huv).
  - intros c lc created w Hin.
    assert (His : is_Some (uv !! upper c)).
    { rewrite <- elem_of_dom, (uv_table_dom _ _ _ Huv). set_solver. }
    destruct His as [rect Hrect]. exists rect. split; [exact Hrect|].
    intros wd uvs Hwd Huvs. simpl.
    rewrite (uv_table_mem _ _ _ _ Huv), bool_decide_eq_true_2 by exact Hin.
    unfold mbind. rewrite (place_char_spec _ _ _ _ _ _ _ _ _ _ Hrect Hwd Huvs).
    reflexivity.
  - intros c line lc created w Hout. simpl.
    by rewrite (uv_table_mem _ _ _ _ Huv), bool_decide_eq_false_2.
Qed.

Lemma matching_ignores_case_witness :
  place_line sample_uv sample_widths "font_atlas_1" (3, 2, 0)%Q (chars_of "h#i")
    0%Q [] saved_world
  = place_line sample_uv sample_widths "font_atlas_1" (3, 2, 0)%Q (chars_of "HI")
      0%Q [] saved_world.
Proof.
  apply (matching_ignores_case (8, 8) (chars_of (characters (default_props "HI")))
           sample_uv sample_widths "font_atlas_1" (3, 2, 0)%Q).
  vm_compute. reflexivity.
Defined.

(** ** The text and its lines *)

Lemma split_lines_chars s : ∀ line c,
  line ∈ split_lines s → c ∈ line → c ∈ s ∧ c ≠ newline.
Proof.
  induction s as [|x s IH]; intros line c Hl Hc; simpl in Hl.
  - apply list_elem_of_singleton in Hl. subst line. by apply elem_of_nil in Hc.
  - destruct (Ascii.eqb_spec x newline) as [->|Hx].
    + apply elem_of_cons in Hl as [->|Hl]; [by apply elem_of_nil in Hc|].
      destruct (IH _ _ Hl Hc). split; [by right | done].
    + destruct (split_lines s) as [|l ls] eqn:Hs.
      * apply list_elem_of_singleton in Hl. subst line.
        apply list_elem_of_singleton in Hc. subst c. split; [by left | done].
      * apply elem_of_cons in Hl as [->|Hl].
        -- apply elem_of_cons in Hc as [->|Hc]; [split; [by left | done]|].
           destruct (IH l c) as [? ?]; [by left | done |]. split; [by right | done].
        -- destruct (IH line c) as [? ?]; [by right | done |]. split; [by right | done].
Qed.

Lemma replace_backslash_n_step x y s :
  replace_backslash_n (x :: y :: s)
  = if Ascii.eqb x backslash && Ascii.eqb y "n"
    then newline :: replace_backslash_n s
    else x :: replace_backslash_n (y :: s).
Proof. reflexivity. Qed.

Lemma replace_backslash_n_chars_len n : ∀ s c,
  (length s <= n)%nat → c ∈ replace_backslash_n s → c = newline ∨ c ∈ s.
Proof.
  induction n as [|n IH]; intros s c Hlen Hc.
  - destruct s; [|simpl in Hlen; lia]. by apply elem_of_nil in Hc.
  - destruct s as [|x [|y s]].
    + by apply elem_of_nil in Hc.
    + by right.
    + rewrite replace_backslash_n_step in Hc.
      destruct (Ascii.eqb x backslash && Ascii.eqb y "n").
      * apply elem_of_cons in Hc as [->|Hc]; [by left|].
        apply IH in Hc as [Hc|Hc]; [by left | | simpl in *; lia].
        right. by do 2 right.
      * apply elem_of_cons in Hc as [->|Hc]; [right; by left|].
        apply IH in Hc as [Hc|Hc]; [by left | | simpl in *; lia].
        right. by right.
Qed.

(** Every character of a line of the text is a character of the text. *)
Lemma line_chars_in_text text line c :
  line ∈ split_lines (replace_backslash_n text) → c ∈ line → c ∈ text.
Proof.
  intros Hl Hc. destruct (split_lines_chars _ _ _ Hl Hc) as [Hin Hnl].
  apply (replace_backslash_n_chars_len (length text)) in Hin as [Hin|Hin]; done.
Qed.

(** ** Lines without a matching character *)

Lemma place_line_none uv cw mat cl line : ∀ lc created w,
  (∀ c, c ∈ line → dict_mem uv (upper c) = false) →
  place_line uv cw mat cl line lc created w = (Return (lc, created), w) ∧
  matched_widths uv cw line = Return [].
Proof.
  induction line as [|c line IH]; intros lc created w H; [by split|].
  simpl. rewrite (H c) by left. apply IH. intros c' Hc'. apply H. by right.
Qed.

Lemma place_lines_none uv cw mat lines : ∀ cl created w,
  (∀ line c, line ∈ lines → c ∈ line → dict_mem uv (upper c) = false) →
  place_lines uv cw mat lines cl created w = (Return created, w).
Proof.
  induction lines as [|line lines IH]; intros cl created w H; [reflexivity|].
  simpl. unfold total_width.
  assert (Hl : ∀ c, c ∈ line → dict_mem uv (upper c) = false).
  { intros c Hc. apply (H line c); [by left | done]. }
  destruct (place_line_none uv cw mat cl line
              (line_start cl (py_sum [])) created w Hl) as [Hpl Hmw].
  rewrite Hmw. simpl obind. unfold mbind at 1, lift at 1.
  unfold mbind at 1. rewrite Hpl. simpl.
  apply IH. intros l c Hin Hc. apply (H l c); [by right | done].
Qed.

Lemma matched_widths_nonempty uv cw line ws :
  matched_widths uv cw line = Return ws →
  Exists (λ c, dict_mem uv (upper c) = true) line → ws ≠ [].
Proof.
  revert ws. induction line as [|c line IH]; intros ws Hws Hex.
  - by apply Exists_nil in Hex.
  - simpl in Hws. destruct (dict_mem uv (upper c)) eqn:Hm.
    + destruct (dict_get cw (upper c)); simpl in Hws; [|discriminate].
      destruct (matched_widths uv cw line); simpl in Hws; [|discriminate].
      inversion Hws. discriminate.
    + apply Exists_cons in Hex as [Hex|Hex]; [congruence|]. by apply IH.
Qed.

(** ** The material and the join *)

Lemma ensure_material_spec name image w :
  ∃ ms, ensure_material name image w = (Return tt, set_materials ms w).
Proof.
  unfold ensure_material, mbind, get. case_bool_decide.
  - exists (materials w). unfold mret. by destruct w.
  - unfold modify. eauto.
Qed.

Lemma returns_bind {A B} (m : M A) (k : A → M B) :
  returns m → (∀ a, returns (k a)) → returns (mbind m k).
Proof.
  intros Hm Hk w. unfold mbind. destruct (Hm w) as (a & w1 & ->). apply Hk.
Qed.

Lemma returns_mret {A} (a : A) : returns (mret a).
Proof. intros w. unfold mret. eauto. Qed.

Lemma returns_get : returns get.
Proof. intros w. unfold get. eauto. Qed.

Lemma returns_modify f : returns (modify f).
Proof. intros w. unfold modify. eauto. Qed.

Lemma returns_lift {A} (a : A) : returns (lift (Return a)).
Proof. intros w. unfold lift. eauto. Qed.

Lemma returns_update_object idx f : returns (update_object idx f).
Proof. apply returns_modify. Qed.

Lemma finish_decal_returns h props decal v :
  view_vector h = Some v → returns (finish_decal h props decal).
Proof.
  intros Hv. unfold finish_decal. rewrite Hv.
  repeat first
    [ apply returns_update_object | apply returns_get | apply returns_lift
    | apply returns_bind; [|intros ?] ].
Qed.

(** ** [create_text_decal] as a whole *)

(** C10. If no character of the text, upper-cased, is a configured
    character, [create_text_decal] creates no quad and does not return:
    it raises, and once both tables are built the exception is the
    [IndexError] of [created_objects[0]] at the join. *)
Theorem no_match_fails_at_join h props img text w :
  Forall (λ c, upper c ∉ chars_of (characters props)) (chars_of text) →
  ∃ e w', create_text_decal h props img text w = (Raise e, w') ∧
    objects w' = objects w ∧
    (∀ uv cw,
       uv_table (cell_count props) (chars_of (characters props)) = Return uv →
       decal_char_widths h props = Return cw → e = IndexError).
Proof.
  intros Hno. unfold create_text_decal.
  unfold mbind at 1.
  destruct (ensure_material_spec (atlas_name props) img w) as [ms1 ->].
  unfold mbind at 1, lift at 1.
  destruct (uv_table (cell_count props) (chars_of (characters props)))
    as [uv|e] eqn:Huv.
  2: { exists e. eexists. split; [reflexivity|]. split; [reflexivity|].
       intros; discriminate. }
  unfold mbind at 1. unfold images_get at 1, mbind at 1, get at 1, mret at 1.
  unfold mbind at 1.
  match goal with
  | |- context [ensure_material ?n ?i ?w0] =>
      destruct (ensure_material_spec n i w0) as [ms2 ->]
  end.
  unfold mbind at 1, lift at 1.
  destruct (decal_char_widths h props) as [cw|e] eqn:Hcw.
  2: { exists e. eexists. split; [reflexivity|]. split; [reflexivity|].
       intros; discriminate. }
  unfold mbind at 1, get at 1. unfold mbind at 1.
  rewrite place_lines_none.
  - unfold mbind at 1, lift at 1. simpl.
    exists IndexError. eexists. split; [reflexivity|]. split; [reflexivity|]. done.
  - intros line c Hl Hc. rewrite (uv_table_mem _ _ _ _ Huv).
    apply bool_decide_eq_false_2.
    rewrite Forall_forall in Hno. apply Hno.
    by apply (line_chars_in_text _ line).
Qed.

Lemma no_match_fails_at_join_witness :
  ∃ e w', create_text_decal sample_host (default_props "#") None "#" saved_world
          = (Raise e, w') ∧
    objects w' = objects saved_world ∧
    (∀ uv cw,
       uv_table (8, 8) (chars_of (characters (default_props "#"))) = Return uv →
       decal_char_widths sample_host (default_props "#") = Return cw →
       e = IndexError).
Proof.
  apply (no_match_fails_at_join sample_host (default_props "#") None "#" saved_world).
  constructor; [|constructor].
  apply (bool_decide_unpack _). vm_compute. exact I.
Defined.

Lemma widths_loop_total font th chars : ∀ d,
  th ≠ 0 → ∃ d', widths_loop font th chars d = Return d'.
Proof.
  induction chars as [|c chars IH]; intros d Hth; simpl; [eauto|].
  unfold measured_width. rewrite py_truediv_Z_ok by assumption. simpl.
  by apply IH.
Qed.

Lemma decal_char_widths_ok h props font :
  truetype h (font_path props) (font_size props) = Some font →
  font_size props ≠ 0 →
  ∃ cw, decal_char_widths h props = Return cw.
Proof.
  intros Hf Hs. unfold decal_char_widths.
  destruct (nonempty (font_path props)); [|eauto].
  unfold calculate_character_widths, open_font. rewrite Hf. simpl.
  by apply widths_loop_total.
Qed.

Lemma some_quad_created uv cw lines (quadss : list (list Object)) :
  Forall2 (λ line quads, ∃ ws,
             matched_widths uv cw line = Return ws ∧
             length quads = length ws) lines quadss →
  Exists (λ line, Exists (λ c, dict_mem uv (upper c) = true) line) lines →
  concat quadss ≠ [].
Proof.
  induction 1 as [|line quads lines quadss (ws & Hws & Hlen) _ IH]; intros Hex.
  - by apply Exists_nil in Hex.
  - apply Exists_cons in Hex as [Hex|Hex].
    + pose proof (matched_widths_nonempty _ _ _ _ Hws Hex) as Hne.
      destruct quads; [destruct ws; [done | discriminate] | discriminate].
    + simpl. intros Happ. apply app_eq_nil in Happ as [_ Happ]. by apply IH.
Qed.

Lemma object_join_returns active selected w o :
  objects w !! active = Some o →
  ∃ idx w', object_join active selected w = (Return idx, w').
Proof.
  intros Ho. unfold object_join, mbind, get, lift, list_get, modify, mret.
  rewrite Ho. eauto.
Qed.

(** With both tables built, a view to take the view vector from and a
    matching character, [create_text_decal] returns. *)
Lemma create_text_decal_ok h props img w uv cw v :
  uv_table (cell_count props) (chars_of (characters props)) = Return uv →
  decal_char_widths h props = Return cw →
  view_vector h = Some v →
  text_matches props →
  ∃ w', create_text_decal h props img (text_content props) w = (Return tt, w').
Proof.
  intros Huv Hcw Hv Hm. unfold create_text_decal.
  unfold mbind at 1.
  destruct (ensure_material_spec (atlas_name props) img w) as [ms1 ->].
  unfold mbind at 1, lift at 1. rewrite Huv.
  unfold mbind at 1. unfold images_get at 1, mbind at 1, get at 1, mret at 1.
  unfold mbind at 1.
  match goal with
  | |- context [ensure_material ?n ?i ?w0] =>
      destruct (ensure_material_spec n i w0) as [ms2 ->]
  end.
  unfold mbind at 1, lift at 1. rewrite Hcw.
  unfold mbind at 1, get at 1. unfold mbind at 1.
  match goal with
  | |- context [place_lines uv cw ?mat ?lines ?cl ?created ?w0] =>
      destruct (place_lines_spec uv cw mat
                  (λ c rect, uv_table_corners _ _ _ c rect Huv)
                  (λ c, tables_same_keys h props uv cw c Huv Hcw)
                  lines cl created w0) as (quadss & -> & Hall)
  end.
  assert (Hne : concat quadss ≠ []).
  { eapply (some_quad_created uv cw).
    { eapply Forall2_impl; [exact Hall|].
      intros line quads (ws & _ & _ & Hws & _ & Hlen & _). eauto. }
    unfold text_matches in Hm. eapply Exists_impl; [exact Hm|].
    intros line Hl. eapply Exists_impl; [exact Hl|].
    intros c Hc. simpl. rewrite (uv_table_mem _ _ _ _ Huv).
    by apply bool_decide_eq_true_2. }
  destruct (concat quadss) as [|q qs] eqn:Hq; [done|].
  unfold mbind at 1, lift at 1. simpl.
  unfold mbind at 1.
  match goal with
  | |- context [object_join ?a ?sel ?w0] =>
      destruct (object_join_returns a sel w0 q) as (idx & w3 & ->)
  end.
  - simpl. clear. induction (objects w) as [|o objs IH]; [reflexivity | exact IH].
  - destruct (finish_decal_returns h props idx v Hv w3) as ([] & w4 & ->). eauto.
Qed.

(** ** The operator's outcomes *)

(** C4, as stated, fails: with a saved project and the non-empty text "#",
    of which no character is configured, the operator neither returns
    CANCELLED nor succeeds; the [IndexError] of the join escapes. *)
Lemma execute_fails_without_match :
  ¬ cancels (default_props "#") saved_world ∧
  (execute sample_host (default_props "#") saved_world).1 = Raise IndexError.
Proof.
  split; [|vm_compute; reflexivity].
  unfold cancels. simpl. intros [H|H]; discriminate.
Qed.

(** When saving the atlas is denied, the handler's [self.report] raises
    [NameError]: no report is made and the operator does not return. *)
Lemma save_denied_raises_name_error :
  (execute readonly_host (default_props "HI") saved_world).1 = Raise NameError ∧
  reports (execute readonly_host (default_props "HI") saved_world).2 = [].
Proof. split; vm_compute; reflexivity. Qed.

(** The characters that count are those of the lines, once the typed
    line breaks are replaced and the text is split: the text made of a
    backslash and [n] alone has the character [n], whose upper-case form
    is configured, yet both its lines are empty and the [IndexError] of
    the join escapes. *)
Lemma typed_break_alone_raises :
  ¬ cancels (default_props "\n") saved_world ∧
  Exists (λ c, upper c ∈ chars_of (characters (default_props "\n")))
    (chars_of (text_content (default_props "\n"))) ∧
  ¬ text_matches (default_props "\n") ∧
  (execute sample_host (default_props "\n") saved_world).1 = Raise IndexError.
Proof.
  split; [unfold cancels; simpl; intros [H|H]; discriminate|].
  split; [apply Exists_cons; right; apply Exists_cons; left;
          apply (bool_decide_unpack _); vm_compute; exact I|].
  split; [|vm_compute; reflexivity].
  unfold text_matches. intros H.
  repeat (apply Exists_cons in H as [H|H]; [by apply Exists_nil in H|]).
  by apply Exists_nil in H.
Qed.

Lemma not_text_matches props line c :
  ¬ text_matches props →
  line ∈ split_lines (replace_backslash_n (chars_of (text_content props))) →
  c ∈ line → upper c ∉ chars_of (characters props).
Proof.
  intros Hno Hl Hc Hin. apply Hno. unfold text_matches.
  apply Exists_exists. exists line. split; [exact Hl|].
  apply Exists_exists. exists c. by split.
Qed.

(** Without a matching character in any line [create_text_decal] does not
    return. *)
Lemma create_text_decal_no_line_match h props img w :
  ¬ text_matches props →
  ∃ e w', create_text_decal h props img (text_content props) w = (Raise e, w').
Proof.
  intros Hno. unfold create_text_decal.
  unfold mbind at 1.
  destruct (ensure_material_spec (atlas_name props) img w) as [ms1 ->].
  unfold mbind at 1, lift at 1.
  destruct (uv_table (cell_count props) (chars_of (characters props)))
    as [uv|e] eqn:Huv; [|eauto].
  unfold mbind at 1. unfold images_get at 1, mbind at 1, get at 1, mret at 1.
  unfold mbind at 1.
  match goal with
  | |- context [ensure_material ?n ?i ?w0] =>
      destruct (ensure_material_spec n i w0) as [ms2 ->]
  end.
  unfold mbind at 1, lift at 1.
  destruct (decal_char_widths h props) as [cw|e] eqn:Hcw; [|eauto].
  unfold mbind at 1, get at 1. unfold mbind at 1.
  rewrite place_lines_none.
  - unfold mbind at 1, lift at 1. simpl. eauto.
  - intros line c Hl Hc. rewrite (uv_table_mem _ _ _ _ Huv).
    apply bool_decide_eq_false_2. by apply (not_text_matches props line c).
Qed.

(** C4, amended. The operator reports an inline error and returns
    CANCELLED if and only if the text is empty or the project file has
    not been saved. In every other case it goes on to generate the atlas
    and the decal. It then returns FINISHED when the font opens, the font
    size and both grid dimensions are not zero, the atlas is saved
    without an exception, the context has a view and some line of the
    text, the lines being those the text splits into at its newlines
    once every backslash followed by [n] has become a newline, has a
    character whose upper-case form is configured. When no line has such
    a character it does not return: an exception escapes. The calls into
    Blender and PIL other than opening the font, saving the image and
    reading the view are taken to complete, as [Host] has them. *)
Theorem execute_outcome h props w :
  (cancels props w →
     ∃ msg, execute h props w
            = (Return CANCELLED, set_reports (reports w ++ [(ERROR, msg)]) w)) ∧
  (∀ w', execute h props w = (Return CANCELLED, w') → cancels props w) ∧
  (¬ cancels props w →
     ∀ font v,
       truetype h (font_path props) (font_size props) = Some font →
       font_size props ≠ 0 →
       (cell_count props).1 ≠ 0 → (cell_count props).2 ≠ 0 →
       save_raises h (atlas_path_of w props) = None →
       view_vector h = Some v →
       text_matches props →
       ∃ w', execute h props w = (Return FINISHED, w')) ∧
  (¬ cancels props w → ¬ text_matches props →
     ∃ e w', execute h props w = (Raise e, w')).
Proof.
  split; [apply execute_cancelled|]. split; [apply execute_cancelled_inv|].
  split.
  - intros Hnc font v Hf Hs Hc Hr Hsave Hv Hm.
    unfold cancels in Hnc. unfold execute, mbind at 1, get at 1.
    destruct (is_saved w && nonempty (filepath w)); [|by destruct Hnc; left].
    destruct (nonempty (text_content props)); [|by destruct Hnc; right].
    destruct (render_atlas_ok h props font Hf Hc Hr) as (drawn & _ & Himg).
    destruct (generate_font_atlas_ok h props w _ Himg Hsave) as (img & w1 & Hg).
    destruct (uv_loop_total _ _ (chars_of (characters props)) 0 ∅ Hc Hr) as [uv Huv].
    destruct (decal_char_widths_ok h props font Hf Hs) as [cw Hcw].
    assert (Huv' : uv_table (cell_count props) (chars_of (characters props))
                   = Return uv).
    { destruct (cell_count props). exact Huv. }
    destruct (create_text_decal_ok h props img w1 uv cw v Huv' Hcw Hv Hm) as [w2 Hd].
    change (negb true) with false. cbv iota.
    unfold mbind at 1. rewrite Hg. unfold mbind at 1. rewrite Hd.
    unfold mret. eauto.
  - intros Hnc Hno.
    unfold cancels in Hnc. unfold execute, mbind at 1, get at 1.
    destruct (is_saved w && nonempty (filepath w)); [|by destruct Hnc; left].
    destruct (nonempty (text_content props)); [|by destruct Hnc; right].
    change (negb true) with false. cbv iota. unfold mbind at 1.
    destruct (generate_font_atlas h props w) as [[img|e] w1]; [|eauto].
    destruct (create_text_decal_no_line_match h props img w1 Hno) as (e & w2 & Hd).
    unfold mbind at 1. rewrite Hd. eauto.
Qed.

Lemma execute_outcome_witness :
  (∃ msg, execute sample_host (default_props "") saved_world
          = (Return CANCELLED,
             set_reports (reports saved_world ++ [(ERROR, msg)]) saved_world)) ∧
  (∃ w', execute sample_host (default_props "Hi") saved_world
         = (Return FINISHED, w')) ∧
  (∃ e w', execute sample_host (default_props "\n") saved_world = (Raise e, w')).
Proof.
  split; [|split].
  - apply (execute_outcome sample_host (default_props "") saved_world).
    right. reflexivity.
  - apply (proj1 (proj2 (proj2
             (execute_outcome sample_host (default_props "Hi") saved_world))))
      with (font := λ _, (50, 70)) (v := (0, 0, 1)%Q);
      try reflexivity; try (simpl; lia).
    + unfold cancels. simpl. intros [H|H]; discriminate.
    + unfold text_matches. apply Exists_cons. left. apply Exists_cons. left.
      apply (bool_decide_unpack _). vm_compute. exact I.
  - apply (proj2 (proj2 (proj2
             (execute_outcome sample_host (default_props "\n") saved_world)))).
    + unfold cancels. simpl. intros [H|H]; discriminate.
    + unfold text_matches. intros H.
      repeat (apply Exists_cons in H as [H|H]; [by apply Exists_nil in H|]).
      by apply Exists_nil in H.
Defined.
